(** * Verification of the VN chat server's session, presence, rate-limit and
      assignment logic

    The development embeds the Socket.IO server (the compiled server
    source and the SQL migration kept in [server/verify_session.js]) and
    the client's A/B helper ([client/src/lib/ab-testing.ts]) as Rocq
    functions over an explicit server state, and states the properties of
    the specification over them.

    Modelling conventions.
    - A JavaScript string is a Rocq [string]; one character is one UTF-16
      code unit below 256.
    - [Date.now()] / [new Date()] are an input [now : Z] (milliseconds) of
      the handler that reads the clock.
    - [uuid.v4()] and the answer of the HTTP classifier are inputs of the
      handler that consumes them.
    - The SQLite store is a record of tables; a Prisma call is a function
      on that record, returning [None] where Prisma would throw.
    - A handler is first a function from the state before to the state
      after and the events emitted, as when it runs with no other handler
      in between; [session:start] is then also cut at its [await]s, where
      the event loop can run another handler. *)

From Stdlib Require Import ZArith List String Ascii Bool Lia QArith.
From Stdlib Require Import Sorting.Permutation Sorting.Sorted.
Import ListNotations.
Set Warnings "-register-all".
Local Open Scope string_scope.
Local Open Scope list_scope.
Local Open Scope Z_scope.

(** ** JavaScript strings *)

Module Js.

Definition code (c : ascii) : Z := Z.of_nat (nat_of_ascii c).

(** [String.prototype.length] *)
Definition length (s : string) : Z := Z.of_nat (String.length s).

(** White space and line terminators removed by [String.prototype.trim],
    among the code units below 256: TAB, LF, VT, FF, CR, SP, NBSP. *)
Definition is_space (c : ascii) : bool :=
  let n := code c in
  ((9 <=? n) && (n <=? 13)) || (n =? 32) || (n =? 160).

Fixpoint trimStart_list (l : list ascii) : list ascii :=
  match l with
  | [] => []
  | c :: r => if is_space c then trimStart_list r else l
  end.

Definition trim_list (l : list ascii) : list ascii :=
  rev (trimStart_list (rev (trimStart_list l))).

(** [String.prototype.trim] *)
Definition trim (s : string) : string :=
  string_of_list_ascii (trim_list (list_ascii_of_string s)).

(** [String.prototype.toUpperCase] on the code units below 256: the
    ASCII small letters and the Latin-1 small letters (224..254 but the
    division sign) move down by 32, and the sharp s (223) becomes [SS].
    The capitals of the micro sign (181) and of y with diaeresis (255)
    are code units above 255, which this alphabet does not have: the two
    are left as they are, and what is stated about upper-casing is stated
    for strings without them. *)
Definition upper_units (c : ascii) : string :=
  let n := code c in
  if ((97 <=? n) && (n <=? 122))
     || ((224 <=? n) && (n <=? 254) && negb (n =? 247))
  then String (ascii_of_nat (Z.to_nat (n - 32))) EmptyString
  else if n =? 223 then "SS"
  else String c EmptyString.

Fixpoint toUpperCase (s : string) : string :=
  match s with
  | EmptyString => EmptyString
  | String c r => (upper_units c ++ toUpperCase r)%string
  end.

(** [String.prototype.substring(i, j)] for [0 <= i <= j]. *)
Definition substring (i j : nat) (s : string) : string :=
  String.substring i (j - i) s.

End Js.

(** ** JSON values exchanged on the sockets and with the classifier *)

Inductive Json : Type :=
| JNull
| JBool (b : bool)
| JNum (q : Q)
| JStr (s : string)
| JIso (ms : Z)                       (* [Date.prototype.toISOString()] of an instant *)
| JArr (items : list Json)
| JObj (fields : list (string * Json)).

(** Property read [o.k]; [None] stands for [undefined]. *)
Fixpoint fields_get (k : string) (fs : list (string * Json)) : option Json :=
  match fs with
  | [] => None
  | (k', v) :: r => if String.eqb k k' then Some v else fields_get k r
  end.

Definition obj_get (k : string) (o : Json) : option Json :=
  match o with
  | JObj fs => fields_get k fs
  | _ => None
  end.

(** ** Insertion-ordered maps ([new Map()]) *)

Section JsMap.
Context {V : Type}.

Definition JsMap := list (string * V).

Fixpoint map_get (k : string) (m : JsMap) : option V :=
  match m with
  | [] => None
  | (k', v) :: r => if String.eqb k k' then Some v else map_get k r
  end.

(** [Map.prototype.set]: an existing key keeps its position. *)
Fixpoint map_set (k : string) (v : V) (m : JsMap) : JsMap :=
  match m with
  | [] => [(k, v)]
  | (k', v') :: r =>
      if String.eqb k k' then (k, v) :: r else (k', v') :: map_set k v r
  end.

Fixpoint map_delete (k : string) (m : JsMap) : JsMap :=
  match m with
  | [] => []
  | (k', v') :: r =>
      if String.eqb k k' then r else (k', v') :: map_delete k r
  end.

Definition map_keys (m : JsMap) : list string := map fst m.
Definition map_values (m : JsMap) : list V := map snd m.
End JsMap.
Arguments JsMap : clear implicits.

(** ** Payload validation (zod)

    A string schema is the list of its checks in the order they are
    chained; zod runs them in that order on the current value, so a check
    placed before [.trim()] sees the untrimmed string. *)

Module Zod.

Inductive StringCheck : Type :=
| min (n : Z)
| max (n : Z)
| trim
| uuid.

Definition is_hex (c : ascii) : bool :=
  let n := Js.code c in
  ((48 <=? n) && (n <=? 57)) || ((97 <=? n) && (n <=? 102))
  || ((65 <=? n) && (n <=? 70)).

Definition is_dash (c : ascii) : bool := Js.code c =? 45.

Fixpoint hex_run (n : nat) (l : list ascii) : option (list ascii) :=
  match n with
  | O => Some l
  | S n' => match l with
            | c :: r => if is_hex c then hex_run n' r else None
            | [] => None
            end
  end.

Definition dash (l : list ascii) : option (list ascii) :=
  match l with
  | c :: r => if is_dash c then Some r else None
  | [] => None
  end.

Definition bind {A B} (o : option A) (f : A -> option B) : option B :=
  match o with Some a => f a | None => None end.

(** The 8-4-4-4-12 hexadecimal layout of [z.string().uuid()]; the version
    and variant digits are not constrained here. *)
Definition is_uuid (s : string) : bool :=
  match bind (hex_run 8 (list_ascii_of_string s)) (fun l1 =>
        bind (dash l1) (fun l2 => bind (hex_run 4 l2) (fun l3 =>
        bind (dash l3) (fun l4 => bind (hex_run 4 l4) (fun l5 =>
        bind (dash l5) (fun l6 => bind (hex_run 4 l6) (fun l7 =>
        bind (dash l7) (fun l8 => hex_run 12 l8)))))))) with
  | Some [] => true
  | _ => false
  end.

(** One check: whether it raises an issue, and the value handed on. *)
Definition run_check (c : StringCheck) (data : string) : bool * string :=
  match c with
  | min n => (n <=? Js.length data, data)
  | max n => (Js.length data <=? n, data)
  | trim => (true, Js.trim data)
  | uuid => (is_uuid data, data)
  end.

Fixpoint run_checks (cs : list StringCheck) (data : string) : bool * string :=
  match cs with
  | [] => (true, data)
  | c :: r =>
      let '(ok, data') := run_check c data in
      let '(ok', out) := run_checks r data' in
      (ok && ok', out)
  end.

(** [z.string()...] applied to one property of the payload. *)
Definition parse_string (cs : list StringCheck) (v : option Json) : option string :=
  match v with
  | Some (JStr s) =>
      let '(ok, out) := run_checks cs s in
      if ok then Some out else None
  | _ => None
  end.

End Zod.

Definition SessionStartSchema_userId : list Zod.StringCheck := [Zod.uuid].
Definition SessionStartSchema_nickname : list Zod.StringCheck :=
  [Zod.min 1; Zod.max 20; Zod.trim].
Definition MessageSendSchema_userId : list Zod.StringCheck := [Zod.uuid].
Definition MessageSendSchema_text : list Zod.StringCheck :=
  [Zod.min 1; Zod.trim].

(** [SessionStartSchema.safeParse(payload)]: [Some (userId, nickname)] on
    success. *)
Definition SessionStartSchema (payload : Json) : option (string * string) :=
  match payload with
  | JObj _ =>
      match Zod.parse_string SessionStartSchema_userId (obj_get "userId" payload),
            Zod.parse_string SessionStartSchema_nickname (obj_get "nickname" payload) with
      | Some u, Some n => Some (u, n)
      | _, _ => None
      end
  | _ => None
  end.

(** [MessageSendSchema.safeParse(payload)]: [Some (userId, text)] on
    success. *)
Definition MessageSendSchema (payload : Json) : option (string * string) :=
  match payload with
  | JObj _ =>
      match Zod.parse_string MessageSendSchema_userId (obj_get "userId" payload),
            Zod.parse_string MessageSendSchema_text (obj_get "text" payload) with
      | Some u, Some t => Some (u, t)
      | _, _ => None
      end
  | _ => None
  end.

(** ** MD5 ([crypto.createHash('md5')], RFC 1321)

    32-bit words are [Z] values in [0, 2^32); additions wrap. *)

Module Md5.

Definition w32 (x : Z) : Z := x mod 2 ^ 32.
Definition add32 (x y : Z) : Z := w32 (x + y).
Definition not32 (x : Z) : Z := 2 ^ 32 - 1 - x.
Definition rotl32 (x : Z) (n : Z) : Z :=
  Z.lor (w32 (Z.shiftl x n)) (Z.shiftr x (32 - n)).

Definition K : list Z :=
  [0xd76aa478; 0xe8c7b756; 0x242070db; 0xc1bdceee; 0xf57c0faf; 0x4787c62a; 0xa8304613; 0xfd469501;
   0x698098d8; 0x8b44f7af; 0xffff5bb1; 0x895cd7be; 0x6b901122; 0xfd987193; 0xa679438e; 0x49b40821;
   0xf61e2562; 0xc040b340; 0x265e5a51; 0xe9b6c7aa; 0xd62f105d; 0x02441453; 0xd8a1e681; 0xe7d3fbc8;
   0x21e1cde6; 0xc33707d6; 0xf4d50d87; 0x455a14ed; 0xa9e3e905; 0xfcefa3f8; 0x676f02d9; 0x8d2a4c8a;
   0xfffa3942; 0x8771f681; 0x6d9d6122; 0xfde5380c; 0xa4beea44; 0x4bdecfa9; 0xf6bb4b60; 0xbebfbc70;
   0x289b7ec6; 0xeaa127fa; 0xd4ef3085; 0x04881d05; 0xd9d4d039; 0xe6db99e5; 0x1fa27cf8; 0xc4ac5665;
   0xf4292244; 0x432aff97; 0xab9423a7; 0xfc93a039; 0x655b59c3; 0x8f0ccc92; 0xffeff47d; 0x85845dd1;
   0x6fa87e4f; 0xfe2ce6e0; 0xa3014314; 0x4e0811a1; 0xf7537e82; 0xbd3af235; 0x2ad7d2bb; 0xeb86d391].

Definition S : list Z :=
  [7; 12; 17; 22; 7; 12; 17; 22; 7; 12; 17; 22; 7; 12; 17; 22;
   5; 9; 14; 20; 5; 9; 14; 20; 5; 9; 14; 20; 5; 9; 14; 20;
   4; 11; 16; 23; 4; 11; 16; 23; 4; 11; 16; 23; 4; 11; 16; 23;
   6; 10; 15; 21; 6; 10; 15; 21; 6; 10; 15; 21; 6; 10; 15; 21].

(** UTF-8 bytes of a string whose code units are below 256. *)
Definition utf8_char (c : ascii) : list Z :=
  let n := Js.code c in
  if n <? 128 then [n]
  else [Z.lor 0xC0 (Z.shiftr n 6); Z.lor 0x80 (Z.land n 0x3F)].

Fixpoint utf8 (s : string) : list Z :=
  match s with
  | EmptyString => []
  | String c r => utf8_char c ++ utf8 r
  end.

Definition le_bytes (n : nat) (x : Z) : list Z :=
  map (fun i => Z.land (Z.shiftr x (8 * Z.of_nat i)) 0xFF) (seq 0 n).

(** Padding: 0x80, zeros up to 56 modulo 64, then the bit length on 64
    bits, little-endian. *)
Definition pad (msg : list Z) : list Z :=
  let len := Z.of_nat (List.length msg) in
  let zeros := Z.to_nat ((55 - len) mod 64) in
  msg ++ [0x80] ++ repeat 0 zeros ++ le_bytes 8 ((8 * len) mod 2 ^ 64).

Fixpoint words (fuel : nat) (bs : list Z) : list Z :=
  match fuel, bs with
  | Datatypes.S f, b0 :: b1 :: b2 :: b3 :: r =>
      (b0 + 256 * b1 + 65536 * b2 + 16777216 * b3) :: words f r
  | _, _ => []
  end.

Definition round (M : list Z) (st : Z * Z * Z * Z) (i : nat) : Z * Z * Z * Z :=
  let '(a, b, c, d) := st in
  let '(f, g) :=
    match Nat.div i 16 with
    | 0%nat => (Z.lor (Z.land b c) (Z.land (not32 b) d), i)
    | 1%nat => (Z.lor (Z.land d b) (Z.land (not32 d) c), Nat.modulo (5 * i + 1) 16)
    | 2%nat => (Z.lxor b (Z.lxor c d), Nat.modulo (3 * i + 5) 16)
    | _ => (Z.lxor c (Z.lor b (not32 d)), Nat.modulo (7 * i) 16)
    end in
  let x := add32 (add32 (add32 f a) (nth i K 0)) (nth g M 0) in
  (d, add32 b (rotl32 x (nth i S 0)), b, c).

Definition block (st : Z * Z * Z * Z) (M : list Z) : Z * Z * Z * Z :=
  let '(a0, b0, c0, d0) := st in
  let '(a, b, c, d) := fold_left (round M) (seq 0 64) st in
  (add32 a0 a, add32 b0 b, add32 c0 c, add32 d0 d).

Fixpoint blocks (fuel : nat) (ws : list Z) (st : Z * Z * Z * Z) : Z * Z * Z * Z :=
  match fuel, ws with
  | Datatypes.S f, _ :: _ => blocks f (skipn 16 ws) (block st (firstn 16 ws))
  | _, _ => st
  end.

(** The 16 bytes of the digest. *)
Definition digest (s : string) : list Z :=
  let bs := pad (utf8 s) in
  let ws := words (List.length bs) bs in
  let '(a, b, c, d) :=
    blocks (List.length ws) ws (0x67452301, 0xefcdab89, 0x98badcfe, 0x10325476) in
  le_bytes 4 a ++ le_bytes 4 b ++ le_bytes 4 c ++ le_bytes 4 d.

Definition hex_digit (n : Z) : ascii :=
  if n <? 10 then ascii_of_nat (Z.to_nat (48 + n))
  else ascii_of_nat (Z.to_nat (87 + n)).

Fixpoint hex_of_bytes (bs : list Z) : string :=
  match bs with
  | [] => EmptyString
  | b :: r => String (hex_digit (Z.shiftr b 4))
                (String (hex_digit (Z.land b 0xF)) (hex_of_bytes r))
  end.

(** [.digest('hex')] *)
Definition hex (s : string) : string := hex_of_bytes (digest s).

End Md5.

(** ** Deterministic A/B assignment *)

Inductive Assignment : Type := CONTROL | TREATMENT.

Definition Assignment_eqb (a b : Assignment) : bool :=
  match a, b with
  | CONTROL, CONTROL | TREATMENT, TREATMENT => true
  | _, _ => false
  end.

Definition Assignment_str (a : Assignment) : string :=
  match a with CONTROL => "CONTROL" | TREATMENT => "TREATMENT" end.

(** 32-bit two's complement wrap-around ([x | 0], the result of [<<]). *)
Definition toInt32 (x : Z) : Z := (x + 2 ^ 31) mod 2 ^ 32 - 2 ^ 31.

(** [client/src/lib/ab-testing.ts] *)
Module AbTesting.

(** One turn of the loop:
    [hash = ((hash << 5) - hash) + userId.charCodeAt(i); hash |= 0]. *)
Definition hash_step (hash : Z) (c : ascii) : Z :=
  toInt32 ((toInt32 (hash * 2 ^ 5) - hash) + Js.code c).

Fixpoint hash_loop (hash : Z) (userId : string) : Z :=
  match userId with
  | EmptyString => hash
  | String c r => hash_loop (hash_step hash c) r
  end.

Definition hash_assignment (userId : string) : Assignment :=
  match userId with
  | EmptyString => CONTROL                         (* [if (!userId)] *)
  | _ => if Z.abs (hash_loop 0 userId) mod 2 =? 1 then TREATMENT else CONTROL
  end.

(** [getAssignment(userId)], reading the browser's [localStorage]. *)
Definition getAssignment (localStorage : JsMap string) (userId : string) : Assignment :=
  match map_get "vn_assignment_override" localStorage with
  | Some "CONTROL" => CONTROL
  | Some "TREATMENT" => TREATMENT
  | _ => hash_assignment userId
  end.

(** [setAssignmentOverride(assignment)] *)
Definition setAssignmentOverride (assignment : option Assignment)
    (localStorage : JsMap string) : JsMap string :=
  match assignment with
  | Some a => map_set "vn_assignment_override" (Assignment_str a) localStorage
  | None => map_delete "vn_assignment_override" localStorage
  end.

End AbTesting.

(** [parseInt(s, 16)] of a one-character string; [None] is [NaN]. *)
Definition parseInt16 (s : string) : option Z :=
  match s with
  | String c EmptyString =>
      let n := Js.code c in
      if (48 <=? n) && (n <=? 57) then Some (n - 48)
      else if (97 <=? n) && (n <=? 102) then Some (n - 87)
      else if (65 <=? n) && (n <=? 70) then Some (n - 55)
      else None
  | _ => None
  end.

(** The server's [getAssignment]:
    md5(userId) -> hex -> first char -> even/odd. *)
Definition getAssignment (userId : string) : Assignment :=
  let hash := Md5.hex userId in
  let firstChar := parseInt16 (Js.substring 0 1 hash) in
  match firstChar with
  | Some n => if n mod 2 =? 0 then CONTROL else TREATMENT
  | None => TREATMENT
  end.

(** ** The persistent store (tables of the migration) *)

Record User : Type := mkUser {
  user_id : string;
  user_nickname : string;
  user_assignment : Assignment;
  user_createdAt : Z;
  user_lastSeenAt : option Z
}.

Record Session : Type := mkSession {
  session_id : Z;
  session_userId : string;
  session_startedAt : Z;
  session_endedAt : option Z;
  session_durationSec : option Z
}.

Record Message : Type := mkMessage {
  message_id : string;
  message_userId : string;
  message_nicknameSnapshot : string;
  message_text : string;
  message_createdAt : Z;
  message_mood : string;
  message_intensity : Q;
  message_seed : option string;
  message_moodUpdatedAt : option Z
}.

Inductive JobStatus : Type := PENDING | PROCESSING | DONE | FAILED.

Record InferenceJob : Type := mkInferenceJob {
  job_id : Z;
  job_messageId : string;
  job_status : JobStatus;
  job_attempts : Z;
  job_lastError : option string;
  job_createdAt : Z;
  job_updatedAt : Z
}.

Record Db : Type := mkDb {
  users : list User;
  sessions : list Session;
  session_seq : Z;                  (* last AUTOINCREMENT id handed out *)
  messages : list Message;
  jobs : list InferenceJob
}.

Definition empty_db : Db := mkDb [] [] 0 [] [].

Module prisma.

Definition user_find (id : string) (db : Db) : option User :=
  find (fun u => String.eqb (user_id u) id) (users db).

(** [prisma.user.upsert({where: {id}, update: {nickname, lastSeenAt},
    create: {id, nickname, assignment, lastSeenAt}})] *)
Definition user_upsert (id nickname : string) (assignment : Assignment) (now : Z)
    (db : Db) : Db :=
  match user_find id db with
  | Some _ =>
      mkDb (map (fun u => if String.eqb (user_id u) id
                          then mkUser (user_id u) nickname (user_assignment u)
                                      (user_createdAt u) (Some now)
                          else u) (users db))
           (sessions db) (session_seq db) (messages db) (jobs db)
  | None =>
      mkDb (users db ++ [mkUser id nickname assignment now (Some now)])
           (sessions db) (session_seq db) (messages db) (jobs db)
  end.

(** [prisma.user.update({where: {id}, data: {lastSeenAt}})]; throws when
    the row is missing. *)
Definition user_update_lastSeenAt (id : string) (now : Z) (db : Db) : option Db :=
  match user_find id db with
  | Some _ =>
      Some (mkDb (map (fun u => if String.eqb (user_id u) id
                                then mkUser (user_id u) (user_nickname u)
                                            (user_assignment u) (user_createdAt u)
                                            (Some now)
                                else u) (users db))
                 (sessions db) (session_seq db) (messages db) (jobs db))
  | None => None
  end.

Definition is_open (s : Session) : bool :=
  match session_endedAt s with None => true | Some _ => false end.

(** [prisma.session.findFirst({where: {userId, endedAt: null}})] *)
Definition session_findFirst_open (userId : string) (db : Db) : option Session :=
  find (fun s => String.eqb (session_userId s) userId && is_open s) (sessions db).

(** [prisma.session.create({data: {userId, startedAt}})] *)
Definition session_create (userId : string) (now : Z) (db : Db) : Db * Session :=
  let s := mkSession (session_seq db + 1) userId now None None in
  (mkDb (users db) (sessions db ++ [s]) (session_seq db + 1) (messages db) (jobs db), s).

Definition session_find (id : Z) (db : Db) : option Session :=
  find (fun s => session_id s =? id) (sessions db).

(** [prisma.session.update({where: {id}, data: {endedAt}})]; throws when
    the row is missing. *)
Definition session_update_endedAt (id : Z) (now : Z) (db : Db) : option Db :=
  match session_find id db with
  | Some _ =>
      Some (mkDb (users db)
                 (map (fun s => if session_id s =? id
                                then mkSession (session_id s) (session_userId s)
                                               (session_startedAt s) (Some now)
                                               (session_durationSec s)
                                else s) (sessions db))
                 (session_seq db) (messages db) (jobs db))
  | None => None
  end.

Definition message_find (id : string) (db : Db) : option Message :=
  find (fun m => String.eqb (message_id m) id) (messages db).

(** A value given for the [intensity] column: [None] is [undefined] (the
    column default applies); anything but a number is refused. *)
Definition intensity_arg (v : option Json) : option Q :=
  match v with
  | None => Some 0%Q
  | Some (JNum q) => Some q
  | Some _ => None
  end.

(** [prisma.message.create({data: {id, userId, nicknameSnapshot, text,
    mood, intensity}})]; throws on a duplicate primary key, on a user id
    without its row (foreign key) and on a malformed [intensity]; [mood]
    is a TEXT column and takes any string. *)
Definition message_create (id userId nicknameSnapshot text mood : string)
    (intensity : option Json) (now : Z) (db : Db) : option (Db * Message) :=
  match message_find id db, user_find userId db, intensity_arg intensity with
  | None, Some _, Some q =>
      let m := mkMessage id userId nicknameSnapshot text now mood q None None in
      Some (mkDb (users db) (sessions db) (session_seq db) (messages db ++ [m]) (jobs db), m)
  | _, _, _ => None
  end.

Fixpoint insert_desc (m : Message) (l : list Message) : list Message :=
  match l with
  | [] => [m]
  | x :: r => if message_createdAt x <? message_createdAt m
              then m :: l else x :: insert_desc m r
  end.

(** [prisma.message.findMany({take, orderBy: {createdAt: 'desc'}})] *)
Definition message_findMany_desc (take : nat) (db : Db) : list Message :=
  firstn take (fold_right insert_desc [] (messages db)).

End prisma.

(** ** In-memory state of the server process *)

(** A value of [connectedClients]: socketId -> { userId, nickname,
    assignment, sessionId }. *)
Record ClientData : Type := mkClientData {
  client_userId : string;
  client_nickname : string;
  client_assignment : Assignment;
  client_sessionId : Z
}.

(** A value of [rateLimits]: userId -> { count, startTime }. *)
Record LimitData : Type := mkLimitData {
  count : Z;
  startTime : Z
}.

Definition RATE_LIMIT_WINDOW_MS : Z := 5000.
Definition RATE_LIMIT_MAX_MESSAGES : Z := 5.

Record State : Type := mkState {
  db : Db;
  connectedClients : JsMap ClientData;
  rateLimits : JsMap LimitData
}.

(** A freshly started process on an empty database. *)
Definition init : State := mkState empty_db [] [].

(** A process restart: the store survives, the two maps start empty. *)
Definition restart (st : State) : State := mkState (db st) [] [].

(** What a handler sends: [socket.emit(event, payload)] to the socket it
    serves, [io.emit(event, payload)] to every connection. *)
Inductive Emit : Type :=
| socket_emit (socketId : string) (event : string) (payload : Json)
| io_emit (event : string) (payload : Json).

Record OnlineUser : Type := mkOnlineUser {
  online_userId : string;
  online_nickname : string;
  online_assignment : Assignment
}.

Definition getOnlineUsers (connectedClients : JsMap ClientData) : list OnlineUser :=
  let uniqueUsersMap :=
    fold_left
      (fun m client =>
         map_set (client_userId client)
                 (mkOnlineUser (client_userId client) (client_nickname client)
                               (client_assignment client)) m)
      (map_values connectedClients) [] in
  map (fun u => mkOnlineUser (online_userId u) (online_nickname u) (online_assignment u))
      (map_values uniqueUsersMap).

Definition OnlineUser_json (u : OnlineUser) : Json :=
  JObj [("userId", JStr (online_userId u));
        ("nickname", JStr (online_nickname u));
        ("assignment", JStr (Assignment_str (online_assignment u)))].

(** The object built for [lastMessages] and for [message:new]. *)
Definition messageDTO (m : Message) : Json :=
  JObj [("id", JStr (message_id m));
        ("userId", JStr (message_userId m));
        ("nicknameSnapshot", JStr (message_nicknameSnapshot m));
        ("text", JStr (message_text m));
        ("createdAt", JIso (message_createdAt m));
        ("mood", JStr (message_mood m));
        ("intensity", JNum (message_intensity m))].

(** ** [socket.on('session:start', ...)] *)

Definition session_start (socketId : string) (payload : Json) (now : Z) (st : State)
    : State * list Emit :=
  match SessionStartSchema payload with
  | None =>
      (st, [socket_emit socketId "error:invalid_payload"
              (JObj [("message", JStr "Invalid payload for session:start")])])
  | Some (userId, nickname) =>
      let assignment := getAssignment userId in
      (* 1. Upsert User *)
      let db1 := prisma.user_upsert userId nickname assignment now (db st) in
      (* 2. Create or Reuse Session *)
      let '(db2, session) :=
        match prisma.session_findFirst_open userId db1 with
        | None => prisma.session_create userId now db1
        | Some s => (db1, s)
        end in
      (* 3. Track locally *)
      let clients :=
        map_set socketId (mkClientData userId nickname assignment (session_id session))
                (connectedClients st) in
      (* 4. Load History (last 50) *)
      let lastMessages := map messageDTO (rev (prisma.message_findMany_desc 50 db2)) in
      (* 5. Build Online Users List (deduplicated) *)
      let onlineUsers := JArr (map OnlineUser_json (getOnlineUsers clients)) in
      (mkState db2 clients (rateLimits st),
       [socket_emit socketId "session:ack"
          (JObj [("userId", JStr userId);
                 ("nickname", JStr nickname);
                 ("assignment", JStr (Assignment_str assignment));
                 ("onlineUsers", onlineUsers);
                 ("lastMessages", JArr lastMessages)]);
        io_emit "presence:update" (JObj [("onlineUsers", onlineUsers)])])
  end.

(** ** [socket.on('message:send', ...)] *)

(** How [fetch('http://localhost:8000/infer', ...)] ends: the promise
    rejects, or a response arrives with its [ok] flag and the outcome of
    [response.json()] ([None] when that rejects). *)
Inductive FetchResult : Type :=
| fetch_rejects
| fetch_response (ok : bool) (json : option Json).

(** The inner [try]/[catch]: the pair ([mood], [intensity]) it leaves. *)
Definition infer (r : FetchResult) : string * option Json :=
  match r with
  | fetch_response true (Some data) =>
      match obj_get "mood" data with
      | Some (JStr mood) => (Js.toUpperCase mood, obj_get "intensity" data)
      | _ => ("NEUTRAL", Some (JNum 0))          (* TypeError, caught *)
      end
  | _ => ("NEUTRAL", Some (JNum 0))
  end.

(** The rate-limit check: the window used for this send. *)
Definition current_window (userId : string) (now : Z) (limits : JsMap LimitData)
    : LimitData :=
  match map_get userId limits with
  | None => mkLimitData 0 now
  | Some limitData =>
      if now - startTime limitData >? RATE_LIMIT_WINDOW_MS
      then mkLimitData 0 now
      else limitData
  end.

Definition message_send (socketId : string) (payload : Json) (now : Z)
    (messageId : string) (response : FetchResult) (st : State)
    : State * list Emit :=
  match map_get socketId (connectedClients st) with
  | None => (st, [])                       (* Not authenticated/session-started *)
  | Some clientData =>
      let userId := client_userId clientData in
      match MessageSendSchema payload with
      | None =>
          (st, [socket_emit socketId "error:invalid_payload"
                  (JObj [("message", JStr "Invalid payload")])])
      | Some (payloadUserId, text) =>
          if negb (String.eqb payloadUserId userId) then
            (st, [socket_emit socketId "error:invalid_payload"
                    (JObj [("message", JStr "User ID mismatch")])])
          else
            (* Rate Limit Check *)
            let limitData := current_window userId now (rateLimits st) in
            if count limitData >=? RATE_LIMIT_MAX_MESSAGES then
              (st, [socket_emit socketId "error:rate_limited"
                      (JObj [("message", JStr "Too many messages. Please wait.")])])
            else
              let limits :=
                map_set userId (mkLimitData (count limitData + 1) (startTime limitData))
                        (rateLimits st) in
              (* Phase 3 Quick Fix: Call python API directly *)
              let '(mood, intensity) := infer response in
              match prisma.message_create messageId userId (client_nickname clientData)
                      text mood intensity now (db st) with
              | None => (mkState (db st) (connectedClients st) limits, [])
              | Some (db1, savedMessage) =>
                  (* Update lastSeenAt *)
                  match prisma.user_update_lastSeenAt userId now db1 with
                  | None => (mkState db1 (connectedClients st) limits, [])
                  | Some db2 =>
                      (mkState db2 (connectedClients st) limits,
                       [io_emit "message:new"
                          (JObj [("message", messageDTO savedMessage)])])
                  end
              end
      end
  end.

(** ** [socket.on('disconnect', ...)] *)

Definition remainingConnections (userId : string) (clients : JsMap ClientData) : Z :=
  Z.of_nat (List.length
              (filter (fun client => String.eqb (client_userId client) userId)
                      (map_values clients))).

Definition disconnect (socketId : string) (now : Z) (st : State) : State * list Emit :=
  match map_get socketId (connectedClients st) with
  | None => (st, [])
  | Some clientData =>
      let userId := client_userId clientData in
      let sessionId := client_sessionId clientData in
      let clients := map_delete socketId (connectedClients st) in
      let remaining := remainingConnections userId clients in
      let db' :=
        if (remaining =? 0) && negb (sessionId =? 0) then
          (* Close session in DB only if no other connections remain *)
          match prisma.session_update_endedAt sessionId now (db st) with
          | None => db st
          | Some db1 =>
              (* Update User lastSeenAt on session close *)
              match prisma.user_update_lastSeenAt userId now db1 with
              | None => db1
              | Some db2 => db2
              end
          end
        else db st in
      (mkState db' clients (rateLimits st),
       [io_emit "presence:update"
          (JObj [("onlineUsers", JArr (map OnlineUser_json (getOnlineUsers clients)))])])
  end.

(** ** Runs of the server: one event after the other, each handler run to
    its end before the next starts *)

Inductive Event : Type :=
| ev_session_start (socketId : string) (payload : Json) (now : Z)
| ev_message_send (socketId : string) (payload : Json) (now : Z)
    (messageId : string) (response : FetchResult)
| ev_disconnect (socketId : string) (now : Z)
| ev_restart.

Definition handle (e : Event) (st : State) : State * list Emit :=
  match e with
  | ev_session_start sid p now => session_start sid p now st
  | ev_message_send sid p now mid r => message_send sid p now mid r st
  | ev_disconnect sid now => disconnect sid now st
  | ev_restart => (restart st, [])
  end.

Fixpoint run (es : list Event) (st : State) : State * list Emit :=
  match es with
  | [] => (st, [])
  | e :: r =>
      let '(st1, out1) := handle e st in
      let '(st2, out2) := run r st1 in
      (st2, (out1 ++ out2)%list)
  end.

Definition reachable (st : State) : Prop := exists es, fst (run es init) = st.

(** ** [session:start] between its awaits

    The handler is an [async] function: at each [await] the event loop may
    run another handler.  A task is a started handler with the point at
    which it is suspended; one step runs the awaited Prisma call and the
    code after it up to the next [await]. *)

Inductive StartPc : Type :=
| at_upsert (lastSeenAt : Z)   (* [await prisma.user.upsert(...)] *)
| at_findFirst                 (* [await prisma.session.findFirst(...)] *)
| at_create (startedAt : Z)    (* [await prisma.session.create(...)] *)
| at_history                (* [await prisma.message.findMany(...)], asc *)
| at_lastMessages           (* [await prisma.message.findMany(...)], desc *)
| finished.

Record StartTask : Type := mkStartTask {
  task_socketId : string;
  task_userId : string;
  task_nickname : string;
  task_assignment : Assignment;
  task_pc : StartPc
}.

Definition task_at (t : StartTask) (pc : StartPc) : StartTask :=
  mkStartTask (task_socketId t) (task_userId t) (task_nickname t)
              (task_assignment t) pc.

(** The code before the first [await]; [new Date()] is read when the call
    is made. *)
Definition start_begin (socketId : string) (payload : Json) (now : Z)
    : StartTask + Emit :=
  match SessionStartSchema payload with
  | None =>
      inr (socket_emit socketId "error:invalid_payload"
             (JObj [("message", JStr "Invalid payload for session:start")]))
  | Some (userId, nickname) =>
      inl (mkStartTask socketId userId nickname (getAssignment userId) (at_upsert now))
  end.

Definition track (t : StartTask) (sessionId : Z) (st : State) (db' : Db) : State :=
  mkState db'
          (map_set (task_socketId t)
                   (mkClientData (task_userId t) (task_nickname t)
                                 (task_assignment t) sessionId)
                   (connectedClients st))
          (rateLimits st).

Definition start_step (now : Z) (t : StartTask) (st : State)
    : State * StartTask * list Emit :=
  match task_pc t with
  | at_upsert lastSeenAt =>
      (mkState (prisma.user_upsert (task_userId t) (task_nickname t)
                                   (task_assignment t) lastSeenAt (db st))
               (connectedClients st) (rateLimits st),
       task_at t at_findFirst, [])
  | at_findFirst =>
      match prisma.session_findFirst_open (task_userId t) (db st) with
      | None => (st, task_at t (at_create now), [])
      | Some s => (track t (session_id s) st (db st), task_at t at_history, [])
      end
  | at_create startedAt =>
      let '(db', s) := prisma.session_create (task_userId t) startedAt (db st) in
      (track t (session_id s) st db', task_at t at_history, [])
  | at_history => (st, task_at t at_lastMessages, [])
  | at_lastMessages =>
      let lastMessages := map messageDTO (rev (prisma.message_findMany_desc 50 (db st))) in
      let onlineUsers := JArr (map OnlineUser_json (getOnlineUsers (connectedClients st))) in
      (st, task_at t finished,
       [socket_emit (task_socketId t) "session:ack"
          (JObj [("userId", JStr (task_userId t));
                 ("nickname", JStr (task_nickname t));
                 ("assignment", JStr (Assignment_str (task_assignment t)));
                 ("onlineUsers", onlineUsers);
                 ("lastMessages", JArr lastMessages)]);
        io_emit "presence:update" (JObj [("onlineUsers", onlineUsers)])])
  | finished => (st, t, [])
  end.

(** A task run alone, from its first [await] to its end. *)
Fixpoint start_run (fuel : nat) (now : Z) (t : StartTask) (st : State)
    : State * list Emit :=
  match fuel with
  | O => (st, [])
  | S f =>
      let '(st1, t1, out1) := start_step now t st in
      let '(st2, out2) := start_run f now t1 st1 in
      (st2, (out1 ++ out2)%list)
  end.

(** Several started handlers: the schedule names, turn after turn, the
    task that resumes and the clock at that moment. *)
Fixpoint interleave (schedule : list (nat * Z)) (tasks : list StartTask) (st : State)
    : State * list StartTask * list Emit :=
  match schedule with
  | [] => (st, tasks, [])
  | (i, now) :: r =>
      match nth_error tasks i with
      | None => interleave r tasks st
      | Some t =>
          let '(st1, t1, out1) := start_step now t st in
          let tasks1 := (firstn i tasks ++ t1 :: skipn (Datatypes.S i) tasks)%list in
          let '(st2, tasks2, out2) := interleave r tasks1 st1 in
          (st2, tasks2, (out1 ++ out2)%list)
      end
  end.

(** The open sessions of a user. *)
Definition open_sessions (userId : string) (d : Db) : list Session :=
  filter (fun s => String.eqb (session_userId s) userId && prisma.is_open s) (sessions d).

(** Invariant (a): a user has at most one open session. *)
Definition one_open_session (d : Db) : Prop :=
  forall userId, (List.length (open_sessions userId d) <= 1)%nat.

(** ** The classification job queue *)

Module JobQueue.

(** Modelled from the spec: the retry bound of the Classification Job
    Queue (section 4.5), whose code is not part of the server source. *)
Definition MAX_ATTEMPTS : Z := 3.

(** Modelled from the spec: Enqueue, the job created with its message, in
    PENDING with attempts=0. *)
Definition enqueue (id : Z) (messageId : string) (now : Z) : InferenceJob :=
  mkInferenceJob id messageId PENDING 0 None now now.

(** Modelled from the spec: Drain, the claim of a PENDING job, which flips
    it to PROCESSING and increments attempts; any other status is not
    claimable. *)
Definition claim (now : Z) (j : InferenceJob) : option InferenceJob :=
  match job_status j with
  | PENDING =>
      Some (mkInferenceJob (job_id j) (job_messageId j) PROCESSING
              (job_attempts j + 1) (job_lastError j) (job_createdAt j) now)
  | _ => None
  end.

(** Modelled from the spec: Execute, success of the classifier call of a
    PROCESSING job, which sets it to DONE. *)
Definition succeed (now : Z) (j : InferenceJob) : option InferenceJob :=
  match job_status j with
  | PROCESSING =>
      Some (mkInferenceJob (job_id j) (job_messageId j) DONE
              (job_attempts j) (job_lastError j) (job_createdAt j) now)
  | _ => None
  end.

(** Modelled from the spec: Failure of the classifier call of a PROCESSING
    job: back to PENDING while attempts < 3, else FAILED; the error is
    kept as the last error observed. *)
Definition fail (error : string) (now : Z) (j : InferenceJob) : option InferenceJob :=
  match job_status j with
  | PROCESSING =>
      Some (mkInferenceJob (job_id j) (job_messageId j)
              (if job_attempts j <? MAX_ATTEMPTS then PENDING else FAILED)
              (job_attempts j) (Some error) (job_createdAt j) now)
  | _ => None
  end.

(** Modelled from the spec: the moves of one job, PENDING -> PROCESSING ->
    DONE | PENDING (retry) | FAILED. *)
Inductive step : InferenceJob -> InferenceJob -> Prop :=
| step_claim now j j' : claim now j = Some j' -> step j j'
| step_succeed now j j' : succeed now j = Some j' -> step j j'
| step_fail error now j j' : fail error now j = Some j' -> step j j'.

(** Modelled from the spec: the life of a job, any number of moves. *)
Inductive steps : InferenceJob -> InferenceJob -> Prop :=
| steps_refl j : steps j j
| steps_next j1 j2 j3 : step j1 j2 -> steps j2 j3 -> steps j1 j3.

(** Modelled from the spec: DONE and FAILED are the terminal statuses. *)
Definition terminal (s : JobStatus) : bool :=
  match s with DONE | FAILED => true | _ => false end.

(** Modelled from the spec: the edges of the status graph, PENDING ->
    PROCESSING and PROCESSING -> DONE, PENDING or FAILED. *)
Definition forward (s s' : JobStatus) : bool :=
  match s, s' with
  | PENDING, PROCESSING
  | PROCESSING, DONE
  | PROCESSING, PENDING
  | PROCESSING, FAILED => true
  | _, _ => false
  end.

(** The counter against the status: PENDING only below three attempts,
    in flight or DONE from one to three, FAILED only at three. *)
Definition well_counted (j : InferenceJob) : Prop :=
  match job_status j with
  | PENDING => 0 <= job_attempts j < MAX_ATTEMPTS
  | PROCESSING | DONE => 1 <= job_attempts j <= MAX_ATTEMPTS
  | FAILED => job_attempts j = MAX_ATTEMPTS
  end.

(** A job in its third execution. *)
Definition third_failure : InferenceJob :=
  mkInferenceJob 1 "m1" PROCESSING 3 (Some "timeout") 0 40.

(** A job driven through a list of moves; [None] when one does not apply. *)
Definition drive (moves : list (InferenceJob -> option InferenceJob))
    (j : InferenceJob) : option InferenceJob :=
  fold_left (fun o move => match o with Some x => move x | None => None end)
            moves (Some j).

End JobQueue.

(** ** The client: forms, stored identity, avatar *)

Module JsCase.

(** [String.prototype.toLowerCase] on code units below 256: the ASCII
    capitals and the Latin-1 capitals (all of 192..222 but the
    multiplication sign) move up by 32. *)
Definition lower_char (c : ascii) : ascii :=
  let n := Js.code c in
  if ((65 <=? n) && (n <=? 90))
     || ((192 <=? n) && (n <=? 222) && negb (n =? 215))
  then ascii_of_nat (Z.to_nat (n + 32)) else c.

Fixpoint toLowerCase (s : string) : string :=
  match s with
  | EmptyString => EmptyString
  | String c r => String (lower_char c) (toLowerCase r)
  end.

(** Truthiness of a string: not empty. *)
Definition truthy (s : string) : bool :=
  match s with EmptyString => false | _ => true end.

End JsCase.

(** [client/src/lib/avatar-mapping.ts] *)
Module AvatarMapping.

Definition basePath : string := "/assets/vn/avatars".

(** The object literal [mapping]: its own properties. *)
Definition mapping : list (string * string) :=
  [("admiration", "admiration.jpeg");
   ("approval", "approval.png");
   ("annoyance", "annoyance.png");
   ("desire", "desire.png");
   ("disappointment", "disappointment.png");
   ("disgust", "disgust.png");
   ("fear", "fear.png");
   ("anger", "angry.png");
   ("surprise", "WTF.png");
   ("confusion", "WTF.png");
   ("disapproval", "glaring.png");
   ("neutral", "neutral.png");
   ("joy", "admiration.jpeg");
   ("love", "desire.png");
   ("sadness", "sad.png")].

Fixpoint own (k : string) (o : list (string * string)) : option string :=
  match o with
  | [] => None
  | (k', v) :: r => if String.eqb k k' then Some v else own k r
  end.

(** The functions an object literal inherits from [Object.prototype]. *)
Definition inherited_functions : list string :=
  ["constructor"; "hasOwnProperty"; "isPrototypeOf"; "propertyIsEnumerable";
   "toLocaleString"; "toString"; "valueOf";
   "__defineGetter__"; "__defineSetter__"; "__lookupGetter__"; "__lookupSetter__"].

(** [`${...}`] of what [mapping[k]] yields: an own file name; for an
    inherited function the engine's rendering of it ([native], from the
    name of the property to the text); for [__proto__] the text of
    [Object.prototype]; [None] is [undefined]. *)
Definition mapping_get (native : string -> string) (k : string) : option string :=
  match own k mapping with
  | Some v => Some v
  | None =>
      if existsb (String.eqb k) inherited_functions then Some (native k)
      else if String.eqb k "__proto__" then Some "[object Object]"
      else None
  end.

(** [getAvatarUrl(emotion)] *)
Definition getAvatarUrl (native : string -> string) (emotion : string) : string :=
  let emotionLower := JsCase.toLowerCase emotion in
  let filename :=
    match mapping_get native emotionLower with
    | Some f => f                                  (* every value is truthy *)
    | None => "admiration.jpeg"
    end in
  (basePath ++ "/" ++ filename)%string.

End AvatarMapping.

(** [client/src/components/VNChatView.tsx], [NicknameModal] and
    [client/src/App.tsx]: what the forms send. *)
Module Client.

(** [latestMessage?.mood || 'neutral'], on the moods of [messages]. *)
Definition currentMood (moods : list string) : string :=
  match rev moods with
  | [] => "neutral"
  | mood :: _ => if JsCase.truthy mood then mood else "neutral"
  end.

(** [NicknameModal.handleSubmit]: [onSubmit(nickname.trim())] when the
    trimmed nickname is not empty. *)
Definition NicknameModal_handleSubmit (nickname : string) : option string :=
  if JsCase.truthy (Js.trim nickname) then Some (Js.trim nickname) else None.

(** [App.handleJoin]: the payload of [session:start]. *)
Definition handleJoin (userId nickname : string) : Json :=
  JObj [("userId", JStr userId); ("nickname", JStr nickname)].

(** [App.handleSendMessage]: the payload of [message:send], or nothing. *)
Definition handleSendMessage (userId inputValue : string) : option Json :=
  if negb (JsCase.truthy (Js.trim inputValue)) then None
  else Some (JObj [("userId", JStr userId); ("text", JStr (Js.trim inputValue))]).

(** [App.sendVNMessage] *)
Definition sendVNMessage (userId text : string) : Json :=
  JObj [("userId", JStr userId); ("text", JStr text)].

(** [VNChatView.handleSend], with [onSendMessage] bound to
    [sendVNMessage]. *)
Definition VNChatView_handleSend (userId inputValue : string) : option Json :=
  if negb (JsCase.truthy (Js.trim inputValue)) then None
  else Some (sendVNMessage userId (Js.trim inputValue)).

(** [localStorage.getItem('vn_userid') || uuidv4()] *)
Definition userIdRef (localStorage : JsMap string) (uuidv4 : string) : string :=
  match map_get "vn_userid" localStorage with
  | Some id => if JsCase.truthy id then id else uuidv4
  | None => uuidv4
  end.

(** [localStorage.setItem('vn_userid', userIdRef.current)], in the effect. *)
Definition store_userId (id : string) (localStorage : JsMap string) : JsMap string :=
  map_set "vn_userid" id localStorage.

(** [App.toggleAssignment]: the new value of the [assignment] state and
    the store after [setAssignmentOverride(newAssignment)]. *)
Definition toggleAssignment (assignment : Assignment) (localStorage : JsMap string)
    : Assignment * JsMap string :=
  let newAssignment :=
    if Assignment_eqb assignment CONTROL then TREATMENT else CONTROL in
  (newAssignment, AbTesting.setAssignmentOverride (Some newAssignment) localStorage).

End Client.

(** [client/src/App.tsx]: the state of [App] and its socket listeners, on
    payloads of the types the listeners declare; [None] is a payload of
    another shape. *)
Module App.

Record AppState : Type := mkAppState {
  connected : bool;
  joined : bool;
  messages : list Json;
  onlineUsers : list Json;
  lastError : option string
}.

Definition onConnect (s : AppState) : AppState :=
  mkAppState true (joined s) (messages s) (onlineUsers s) None.

Definition onDisconnect (s : AppState) : AppState :=
  mkAppState false (joined s) (messages s) (onlineUsers s) (lastError s).

Definition onSessionAck (payload : Json) (s : AppState) : option AppState :=
  match obj_get "lastMessages" payload, obj_get "onlineUsers" payload with
  | Some (JArr lastMessages), Some (JArr users) =>
      Some (mkAppState (connected s) true lastMessages users None)
  | _, _ => None
  end.

Definition onPresenceUpdate (payload : Json) (s : AppState) : option AppState :=
  match obj_get "onlineUsers" payload with
  | Some (JArr users) => Some (mkAppState (connected s) (joined s) (messages s) users (lastError s))
  | _ => None
  end.

(** [setMessages(prev => [...prev, payload.message])] *)
Definition onMessageNew (payload : Json) (s : AppState) : option AppState :=
  match obj_get "message" payload with
  | Some message =>
      Some (mkAppState (connected s) (joined s) (messages s ++ [message]) (onlineUsers s) (lastError s))
  | None => None
  end.

Definition onError (payload : Json) (s : AppState) : option AppState :=
  match obj_get "message" payload with
  | Some (JStr message) =>
      Some (mkAppState (connected s) (joined s) (messages s) (onlineUsers s) (Some message))
  | _ => None
  end.

(** The listeners registered with [socket.on]. *)
Definition listener (event : string) : option (Json -> AppState -> option AppState) :=
  if String.eqb event "session:ack" then Some onSessionAck
  else if String.eqb event "presence:update" then Some onPresenceUpdate
  else if String.eqb event "message:new" then Some onMessageNew
  else if String.eqb event "error:rate_limited" then Some onError
  else if String.eqb event "error:invalid_payload" then Some onError
  else None.

(** What of the server's emissions arrives at a socket. *)
Definition arrives (socketId : string) (e : Emit) : option (string * Json) :=
  match e with
  | socket_emit to event payload =>
      if String.eqb to socketId then Some (event, payload) else None
  | io_emit event payload => Some (event, payload)
  end.

(** The emissions of the server, handled in the order sent. *)
Fixpoint deliver (socketId : string) (out : list Emit) (s : AppState)
    : option AppState :=
  match out with
  | [] => Some s
  | e :: r =>
      match arrives socketId e with
      | None => deliver socketId r s
      | Some (event, payload) =>
          match listener event with
          | None => deliver socketId r s
          | Some on =>
              match on payload s with
              | Some s' => deliver socketId r s'
              | None => None
              end
          end
      end
  end.

End App.

(** * Vocabulary of the statements *)

Definition online_of (client : ClientData) : OnlineUser :=
  mkOnlineUser (client_userId client) (client_nickname client) (client_assignment client).

Definition collect (l : list ClientData) (acc : JsMap OnlineUser) : JsMap OnlineUser :=
  fold_left (fun m client => map_set (client_userId client) (online_of client) m) l acc.

Definition two_tabs : JsMap ClientData :=
  [("socketA", mkClientData "123e4567-e89b-42d3-a456-426614174000" "Ann" CONTROL 1);
   ("socketB", mkClientData "9f1c2d3e-0000-4000-8000-00000000000b" "Bob" TREATMENT 2);
   ("socketC", mkClientData "123e4567-e89b-42d3-a456-426614174000" "Annie" CONTROL 1)].

(** The hash without wrap-around: the value of the polynomial
    [c0 * 31^(n-1) + ... + c(n-1)] started from [h]. *)
Fixpoint poly31 (h : Z) (userId : string) : Z :=
  match userId with
  | EmptyString => h
  | String c r => poly31 (31 * h + Js.code c) r
  end.

Definition sample_userId : string := "123e4567-e89b-42d3-a456-426614174000".

Definition user_ids (d : Db) : list string := map user_id (users d).

Definition join_payload : Json :=
  JObj [("userId", JStr sample_userId); ("nickname", JStr "Verifier")].

Definition join_A : StartTask :=
  mkStartTask "socketA" sample_userId "Verifier" CONTROL (at_upsert 1000).
Definition join_B : StartTask :=
  mkStartTask "socketB" sample_userId "Verifier" CONTROL (at_upsert 1001).

(** Each handler resumes in turn, as the event loop does when the two
    events arrive together. *)
Definition round_robin : list (nat * Z) :=
  [(0%nat, 1002); (1%nat, 1003);      (* both upserts *)
   (0%nat, 1004); (1%nat, 1005);      (* both findFirst: no open session *)
   (0%nat, 1006); (1%nat, 1007);      (* both create *)
   (0%nat, 1008); (1%nat, 1009);
   (0%nat, 1010); (1%nat, 1011)].

(** No handler writes [durationSec]: it is NULL in every session row. *)
Definition no_duration (d : Db) : Prop :=
  forall s, In s (sessions d) -> session_durationSec s = None.

(** A send is admitted when the socket has joined, the payload passes the
    schema for the socket's own user, and the rate limiter lets it
    through; the result is the socket's entry and the text handed on. *)
Definition admitted (socketId : string) (payload : Json) (now : Z) (st : State)
    : option (ClientData * string) :=
  match map_get socketId (connectedClients st), MessageSendSchema payload with
  | Some clientData, Some (payloadUserId, text) =>
      if String.eqb payloadUserId (client_userId clientData)
         && (count (current_window (client_userId clientData) now (rateLimits st))
             <? RATE_LIMIT_MAX_MESSAGES)
      then Some (clientData, text) else None
  | _, _ => None
  end.

(** The counter of an admitted send. *)
Definition counted (userId : string) (now : Z) (limits : JsMap LimitData)
    : JsMap LimitData :=
  let limitData := current_window userId now limits in
  map_set userId (mkLimitData (count limitData + 1) (startTime limitData)) limits.

Definition event_of (e : Emit) : string :=
  match e with
  | socket_emit _ event _ => event
  | io_emit event _ => event
  end.

(** Every connected socket belongs to a user that has its row. *)
Definition clients_known (st : State) : Prop :=
  forall socketId clientData,
    In (socketId, clientData) (connectedClients st) ->
    In (client_userId clientData) (user_ids (db st)).

(** One user joined on one socket at 1000. *)
Definition joined_state : State :=
  fst (run [ev_session_start "socketA" join_payload 1000] init).

Definition hello : Json :=
  JObj [("userId", JStr sample_userId); ("text", JStr "hello")].


Definition response_joy : FetchResult :=
  fetch_response true (Some (JObj [("mood", JStr "joy"); ("intensity", JNum (8 # 10))])).

Definition blank_text : Json :=
  JObj [("userId", JStr sample_userId); ("text", JStr "   ")].

Definition blank_nickname : Json :=
  JObj [("userId", JStr sample_userId); ("nickname", JStr "   ")].

(** One send of a burst: the clock, the id drawn for the message and the
    answer of the classifier. *)
Record Send : Type := mkSend {
  send_now : Z;
  send_messageId : string;
  send_response : FetchResult
}.

Definition send_event (socketId : string) (payload : Json) (s : Send) : Event :=
  ev_message_send socketId payload (send_now s) (send_messageId s) (send_response s).

(** The socket has joined and the payload is a valid message of its user. *)
Definition may_send (socketId : string) (payload : Json) (st : State)
    (clientData : ClientData) : Prop :=
  map_get socketId (connectedClients st) = Some clientData
  /\ exists text, MessageSendSchema payload = Some (client_userId clientData, text).

Definition limit_of (userId : string) (st : State) : option LimitData :=
  map_get userId (rateLimits st).

(** The window is new at [now]: no entry yet, or the last one has elapsed. *)
Definition window_elapsed (userId : string) (now : Z) (st : State) : Prop :=
  match limit_of userId st with
  | None => True
  | Some limitData => now - startTime limitData > RATE_LIMIT_WINDOW_MS
  end.

Definition rate_limited_signal (socketId : string) : Emit :=
  socket_emit socketId "error:rate_limited"
    (JObj [("message", JStr "Too many messages. Please wait.")]).

Definition flood : list Send :=
  [mkSend 1501 "m2" fetch_rejects; mkSend 1502 "m3" fetch_rejects;
   mkSend 1503 "m4" fetch_rejects; mkSend 1504 "m5" fetch_rejects].

Definition after_flood : State :=
  fst (run (map (send_event "socketA" hello) (mkSend 1500 "m1" fetch_rejects :: flood))
           joined_state).

(** Session ids are those handed out by AUTOINCREMENT: distinct, positive
    and not above the last one. *)
Definition sessions_numbered (d : Db) : Prop :=
  NoDup (map session_id (sessions d))
  /\ 0 <= session_seq d
  /\ forall s, In s (sessions d) -> 0 < session_id s <= session_seq d.

(** Every connected socket points at an open session of its own user. *)
Definition clients_tracked (st : State) : Prop :=
  forall socketId clientData,
    In (socketId, clientData) (connectedClients st) ->
    exists s, In s (sessions (db st))
      /\ session_id s = client_sessionId clientData
      /\ session_userId s = client_userId clientData
      /\ session_endedAt s = None.

(** [endedAt] set on the row of a given id. *)
Definition close_row (id now : Z) (s : Session) : Session :=
  if session_id s =? id
  then mkSession (session_id s) (session_userId s) (session_startedAt s) (Some now)
                 (session_durationSec s)
  else s.

(** A nickname as the schema hands it on: at most 20 characters, nothing
    to trim. *)
Definition nickname_ok (n : string) : Prop :=
  Js.length n <= 20 /\ Js.trim n = n.

(** A row of User as the server writes it. *)
Definition user_ok (u : User) : Prop :=
  Zod.is_uuid (user_id u) = true
  /\ nickname_ok (user_nickname u)
  /\ user_assignment u = getAssignment (user_id u)
  /\ user_lastSeenAt u <> None.

Definition users_ok (l : list User) : Prop :=
  NoDup (map user_id l) /\ forall u, In u l -> user_ok u.

Definition message_ids (d : Db) : list string := map message_id (messages d).

(** A row of Message as the server writes it. *)
Definition messages_ok (d : Db) : Prop :=
  NoDup (message_ids d)
  /\ forall m, In m (messages d) ->
       In (message_userId m) (user_ids d)
       /\ Js.trim (message_text m) = message_text m
       /\ message_seed m = None /\ message_moodUpdatedAt m = None.

(** The counters of the rate limiter stay between 1 and the maximum. *)
Definition limits_ok (limits : JsMap LimitData) : Prop :=
  forall userId limitData,
    In (userId, limitData) limits ->
    1 <= count limitData <= RATE_LIMIT_MAX_MESSAGES.



(** The sum of the code units of a string. *)
Fixpoint code_sum (s : string) : Z :=
  match s with
  | EmptyString => 0
  | String c r => Js.code c + code_sum r
  end.

(** The files the avatar mapping names. *)
Definition avatar_files : list string := map snd AvatarMapping.mapping.

(** The connection of a user that was added last. *)
Definition latest_connection (userId : string) (clients : JsMap ClientData)
    : option ClientData :=
  find (fun c => String.eqb (client_userId c) userId) (rev (map_values clients)).

(** An event that is neither a restart of the server nor a join or a
    disconnect of the given socket. *)
Definition elsewhere (socketId : string) (e : Event) : bool :=
  match e with
  | ev_session_start sid _ _ | ev_disconnect sid _ => negb (String.eqb sid socketId)
  | ev_message_send _ _ _ _ _ => true
  | ev_restart => false
  end.

(** The list of online users a client holds is the server's. *)
Definition presence_in_sync (c : App.AppState) (st : State) : Prop :=
  App.onlineUsers c = map OnlineUser_json (getOnlineUsers (connectedClients st)).

(** All code units are ASCII. *)
Definition ascii_only (s : string) : bool :=
  forallb (fun c => Js.code c <? 128) (list_ascii_of_string s).



(** * Properties *)

(** ** Insertion-ordered maps *)

Section JsMapFacts.
Context {V : Type}.
Implicit Types (m : JsMap V) (k : string) (v : V).

Lemma map_get_set_same k v m : map_get k (map_set k v m) = Some v.
Proof.
  induction m as [|[k' v'] r IH]; simpl.
  - now rewrite String.eqb_refl.
  - destruct (String.eqb k k') eqn:E; simpl; rewrite ?String.eqb_refl, ?E; auto.
Qed.

Lemma map_get_set_other k k' v m :
  k <> k' -> map_get k' (map_set k v m) = map_get k' m.
Proof.
  intros Hne. induction m as [|[k0 v0] r IH]; simpl.
  - destruct (String.eqb_spec k' k); congruence.
  - destruct (String.eqb_spec k k0) as [->|Hk]; simpl.
    + destruct (String.eqb_spec k' k0); congruence.
    + now rewrite IH.
Qed.

Lemma map_keys_set k v m k' :
  In k' (map_keys (map_set k v m)) <-> k' = k \/ In k' (map_keys m).
Proof.
  unfold map_keys. induction m as [|[k0 v0] r IH]; simpl.
  - intuition congruence.
  - destruct (String.eqb_spec k k0) as [->|Hk]; simpl.
    + intuition congruence.
    + rewrite IH. intuition congruence.
Qed.

Lemma map_set_NoDup k v m :
  NoDup (map_keys m) -> NoDup (map_keys (map_set k v m)).
Proof.
  unfold map_keys. induction m as [|[k0 v0] r IH]; simpl; intros Hnd.
  - constructor; [intros []|constructor].
  - inversion Hnd as [|? ? Hnotin Hr]; subst.
    destruct (String.eqb_spec k k0) as [->|Hk]; simpl.
    + now constructor.
    + constructor; [|now apply IH].
      intros Hin. apply (map_keys_set k v r k0) in Hin.
      destruct Hin; [congruence|contradiction].
Qed.

Lemma map_set_In k v m k' v' :
  In (k', v') (map_set k v m) -> (k' = k /\ v' = v) \/ In (k', v') m.
Proof.
  induction m as [|[k0 v0] r IH]; simpl.
  - intros [H|[]]; inversion H; auto.
  - destruct (String.eqb_spec k k0) as [->|Hk]; simpl.
    + intros [H|H]; [inversion H|]; auto.
    + intros [H|H]; auto. destruct (IH H); auto.
Qed.

Lemma map_get_In k v m : map_get k m = Some v -> In (k, v) m.
Proof.
  induction m as [|[k0 v0] r IH]; simpl; [discriminate|].
  destruct (String.eqb_spec k k0) as [->|Hk].
  - intros H; inversion H; auto.
  - auto.
Qed.

Lemma map_delete_In k m k' v' :
  In (k', v') (map_delete k m) -> In (k', v') m.
Proof.
  induction m as [|[k0 v0] r IH]; simpl; auto.
  destruct (String.eqb k k0); simpl; intuition.
Qed.

Lemma map_get_delete_other k k' m :
  k <> k' -> map_get k' (map_delete k m) = map_get k' m.
Proof.
  intros Hne. induction m as [|[k0 v0] r IH]; simpl; auto.
  destruct (String.eqb_spec k k0) as [->|Hk]; simpl.
  - destruct (String.eqb_spec k' k0); congruence.
  - now rewrite IH.
Qed.
End JsMapFacts.

(** ** Presence: [getOnlineUsers] *)

Lemma getOnlineUsers_collect clients :
  getOnlineUsers clients = map_values (collect (map_values clients) []).
Proof.
  unfold getOnlineUsers, collect, online_of.
  rewrite <- (map_id (map_values (fold_left _ _ _))) at 2.
  apply map_ext. now intros [].
Qed.

Lemma collect_keys l : forall acc k,
  In k (map_keys (collect l acc)) <-> In k (map_keys acc) \/ In k (map client_userId l).
Proof.
  unfold collect. induction l as [|c r IH]; simpl; intros acc k.
  - tauto.
  - rewrite IH, map_keys_set. intuition congruence.
Qed.

Lemma collect_NoDup l : forall acc,
  NoDup (map_keys acc) -> NoDup (map_keys (collect l acc)).
Proof.
  unfold collect. induction l as [|c r IH]; simpl; intros acc Hnd; auto.
  apply IH. now apply map_set_NoDup.
Qed.

Lemma collect_entries l : forall acc k v,
  In (k, v) (collect l acc) ->
  In (k, v) acc \/ exists c, In c l /\ k = client_userId c /\ v = online_of c.
Proof.
  unfold collect. induction l as [|c r IH]; simpl; intros acc k v Hin; auto.
  destruct (IH _ _ _ Hin) as [H|(c' & Hc' & Hk & Hv)].
  - destruct (map_set_In _ _ _ _ _ H) as [[-> ->]|H']; [right; exists c|left]; auto.
  - right. exists c'. auto.
Qed.

Lemma keyed_values (m : JsMap OnlineUser) :
  (forall k v, In (k, v) m -> online_userId v = k) ->
  map online_userId (map_values m) = map_keys m.
Proof.
  unfold map_values, map_keys. induction m as [|[k v] r IH]; simpl; intros H; auto.
  rewrite (H k v) by auto. f_equal. apply IH. intros; apply H; auto.
Qed.

Lemma filter_absent_key {A} (f : A -> string) (l : list A) (k : string) :
  ~ In k (map f l) -> filter (fun y => String.eqb (f y) k) l = [].
Proof.
  induction l as [|a r IH]; simpl; intros Hnotin; auto.
  destruct (String.eqb_spec (f a) k) as [E|E].
  - exfalso. auto.
  - apply IH. intros H. auto.
Qed.

Lemma filter_unique_key {A} (f : A -> string) (l : list A) (x : A) :
  NoDup (map f l) -> In x l ->
  filter (fun y => String.eqb (f y) (f x)) l = [x].
Proof.
  induction l as [|a r IH]; simpl; intros Hnd Hin; [contradiction|].
  inversion Hnd as [|? ? Hnotin Hr]; subst.
  destruct Hin as [->|Hin].
  - rewrite String.eqb_refl. f_equal. now apply filter_absent_key.
  - destruct (String.eqb_spec (f a) (f x)) as [E|E].
    + exfalso. apply Hnotin. rewrite E. now apply in_map.
    + now apply IH.
Qed.

Lemma remainingConnections_pos userId clients :
  1 <= remainingConnections userId clients ->
  exists client, In client (map_values clients) /\ client_userId client = userId.
Proof.
  unfold remainingConnections. intros H.
  destruct (filter _ (map_values clients)) as [|c r] eqn:E; simpl in H; [lia|].
  assert (Hin : In c (filter (fun client => String.eqb (client_userId client) userId)
                             (map_values clients))) by (rewrite E; simpl; auto).
  apply filter_In in Hin. destruct Hin as [Hin Heq].
  apply String.eqb_eq in Heq. eauto.
Qed.

Lemma remainingConnections_zero userId clients :
  remainingConnections userId clients = 0 ->
  ~ In userId (map client_userId (map_values clients)).
Proof.
  unfold remainingConnections. intros H Hin.
  apply in_map_iff in Hin. destruct Hin as (c & Hc & Hin).
  assert (Hf : In c (filter (fun client => String.eqb (client_userId client) userId)
                            (map_values clients))).
  { apply filter_In. split; auto. now apply String.eqb_eq. }
  destruct (filter _ (map_values clients)); simpl in *; [contradiction|lia].
Qed.

Lemma getOnlineUsers_keys clients :
  map online_userId (getOnlineUsers clients)
  = map_keys (collect (map_values clients) []).
Proof.
  rewrite getOnlineUsers_collect. apply keyed_values.
  intros k v Hin. apply collect_entries in Hin.
  destruct Hin as [[]|(c & _ & -> & ->)]. reflexivity.
Qed.

(** C9. In every state of the presence registry the list returned by
    [getOnlineUsers] holds no userId twice; a user with at least one live
    connection appears in it exactly once, as an entry made of the userId,
    nickname and assignment of one of that user's connections; a user
    without a connection does not appear. *)
Theorem getOnlineUsers_deduplicated (clients : JsMap ClientData) :
  NoDup (map online_userId (getOnlineUsers clients)) /\
  (forall userId, 1 <= remainingConnections userId clients ->
     exists u,
       filter (fun o => String.eqb (online_userId o) userId) (getOnlineUsers clients) = [u]
       /\ online_userId u = userId
       /\ exists client,
            In client (map_values clients) /\ client_userId client = userId
            /\ online_nickname u = client_nickname client
            /\ online_assignment u = client_assignment client) /\
  (forall userId, remainingConnections userId clients = 0 ->
     ~ In userId (map online_userId (getOnlineUsers clients))).
Proof.
  assert (Hnd : NoDup (map online_userId (getOnlineUsers clients))).
  { rewrite getOnlineUsers_keys. apply collect_NoDup. constructor. }
  split; [exact Hnd|split].
  - intros userId Hpos.
    destruct (remainingConnections_pos _ _ Hpos) as (c & Hc & Hid).
    assert (Hk : In userId (map online_userId (getOnlineUsers clients))).
    { rewrite getOnlineUsers_keys. apply collect_keys. right.
      rewrite <- Hid. now apply in_map. }
    apply in_map_iff in Hk. destruct Hk as (u & Hu & Hin).
    exists u. split; [|split; [exact Hu|]].
    + rewrite <- Hu. now apply filter_unique_key.
    + rewrite getOnlineUsers_collect in Hin.
      apply in_map_iff in Hin. destruct Hin as ([k v] & Hv & Hin).
      simpl in Hv. subst v.
      apply collect_entries in Hin. destruct Hin as [[]|(c' & Hc' & Hk' & ->)].
      exists c'. simpl in Hu. repeat split; auto.
  - intros userId Hz Hin.
    rewrite getOnlineUsers_keys in Hin. apply collect_keys in Hin.
    destruct Hin as [[]|Hin].
    now apply (remainingConnections_zero _ _ Hz).
Qed.

Lemma getOnlineUsers_deduplicated_witness :
  1 <= remainingConnections "123e4567-e89b-42d3-a456-426614174000" two_tabs /\
  exists u,
    filter (fun o => String.eqb (online_userId o) "123e4567-e89b-42d3-a456-426614174000")
           (getOnlineUsers two_tabs) = [u]
    /\ online_userId u = "123e4567-e89b-42d3-a456-426614174000"
    /\ exists client,
         In client (map_values two_tabs)
         /\ client_userId client = "123e4567-e89b-42d3-a456-426614174000"
         /\ online_nickname u = client_nickname client
         /\ online_assignment u = client_assignment client.
Proof.
  split; [vm_compute; discriminate|].
  apply (proj1 (proj2 (getOnlineUsers_deduplicated two_tabs))).
  vm_compute; discriminate.
Defined.

Example getOnlineUsers_two_tabs :
  getOnlineUsers two_tabs
  = [mkOnlineUser "123e4567-e89b-42d3-a456-426614174000" "Annie" CONTROL;
     mkOnlineUser "9f1c2d3e-0000-4000-8000-00000000000b" "Bob" TREATMENT].
Proof. reflexivity. Qed.

(** ** The classification job queue *)

Module JobQueueFacts.
Import JobQueue.

Ltac job_cases H :=
  match type of H with
  | claim _ ?j = Some _ => unfold claim in H; destruct (job_status j) eqn:?; inversion H; subst; clear H
  | succeed _ ?j = Some _ => unfold succeed in H; destruct (job_status j) eqn:?; inversion H; subst; clear H
  | fail _ _ ?j = Some _ => unfold fail in H; destruct (job_status j) eqn:?; inversion H; subst; clear H
  end.

Lemma step_attempts j j' : step j j' -> job_attempts j <= job_attempts j'.
Proof. intros [now ? ? H|now ? ? H|e now ? ? H]; job_cases H; simpl; lia. Qed.

Lemma steps_attempts j j' : steps j j' -> job_attempts j <= job_attempts j'.
Proof.
  induction 1 as [|j1 j2 j3 H12 _ IH]; [lia|].
  apply step_attempts in H12. lia.
Qed.

Lemma terminal_stuck j j' : terminal (job_status j) = true -> ~ step j j'.
Proof.
  intros Ht Hs. revert Ht.
  destruct Hs as [now ? ? H|now ? ? H|e now ? ? H]; job_cases H;
    simpl; discriminate.
Qed.

Lemma terminal_steps j j' : terminal (job_status j) = true -> steps j j' -> j' = j.
Proof.
  intros Ht Hs. revert Ht.
  destruct Hs as [|j1 j2 j3 H12 _]; intros Ht; auto.
  now apply terminal_stuck in H12.
Qed.

Lemma step_forward j j' : step j j' -> forward (job_status j) (job_status j') = true.
Proof.
  intros [now ? ? H|now ? ? H|e now ? ? H]; job_cases H; simpl;
    try match goal with E : job_status _ = _ |- _ => rewrite E end; auto.
  destruct (_ <? _); auto.
Qed.

Lemma step_well_counted j j' : well_counted j -> step j j' -> well_counted j'.
Proof.
  unfold well_counted, MAX_ATTEMPTS.
  intros Hw Hs. revert Hw.
  destruct Hs as [now ? ? H|now ? ? H|e now ? ? H]; job_cases H;
    unfold MAX_ATTEMPTS; simpl; try lia.
  destruct (Z.ltb_spec (job_attempts j) 3); simpl; lia.
Qed.

Lemma job_attempts_bounded id messageId now j :
  steps (enqueue id messageId now) j -> well_counted j.
Proof.
  assert (H0 : well_counted (enqueue id messageId now))
    by (unfold well_counted, MAX_ATTEMPTS; simpl; lia).
  revert H0. generalize (enqueue id messageId now).
  induction 2 as [|j1 j2 j3 H12 _ IH]; auto.
  apply IH. eapply step_well_counted; eauto.
Qed.

(** C4. For every classification job: a move never lowers the attempt
    counter (along one move or any sequence of moves); every move follows
    an edge PENDING->PROCESSING, PROCESSING->DONE, PROCESSING->PENDING or
    PROCESSING->FAILED, and no move leaves DONE or FAILED; a failed
    execution with attempts < 3 puts the job back to PENDING, from where
    it can be claimed again; a failed execution with attempts >= 3 puts
    it in FAILED with the error recorded, and nothing moves it again. *)
Theorem job_lifecycle :
  (forall j j', steps j j' -> job_attempts j <= job_attempts j') /\
  (forall j j', step j j' -> forward (job_status j) (job_status j') = true) /\
  (forall j j', terminal (job_status j) = true -> steps j j' -> j' = j) /\
  (forall error now j,
     job_status j = PROCESSING -> job_attempts j < 3 ->
     exists j', fail error now j = Some j'
       /\ job_status j' = PENDING /\ job_attempts j' = job_attempts j
       /\ exists now' j'', claim now' j' = Some j''
            /\ job_attempts j'' = job_attempts j + 1) /\
  (forall error now j,
     job_status j = PROCESSING -> 3 <= job_attempts j ->
     exists j', fail error now j = Some j'
       /\ job_status j' = FAILED /\ job_lastError j' = Some error
       /\ job_attempts j' = job_attempts j
       /\ forall j'', ~ step j' j'').
Proof.
  split; [exact steps_attempts|].
  split; [exact step_forward|].
  split; [exact terminal_steps|].
  split.
  - intros error now j Hs Ha. unfold fail, claim, MAX_ATTEMPTS. rewrite Hs.
    destruct (Z.ltb_spec (job_attempts j) 3); [|lia].
    eexists. split; [reflexivity|]. simpl. repeat split.
    exists now. eexists. split; reflexivity.
  - intros error now j Hs Ha. unfold fail, MAX_ATTEMPTS. rewrite Hs.
    destruct (Z.ltb_spec (job_attempts j) 3); [lia|].
    eexists. split; [reflexivity|]. simpl. repeat split.
    intros j''. now apply terminal_stuck.
Qed.

Lemma job_lifecycle_witness :
  job_status third_failure = PROCESSING /\ 3 <= job_attempts third_failure /\
  exists j', fail "transport error" 50 third_failure = Some j'
    /\ job_status j' = FAILED /\ job_lastError j' = Some "transport error"
    /\ job_attempts j' = job_attempts third_failure
    /\ forall j'', ~ step j' j''.
Proof.
  split; [reflexivity|]. split; [simpl; lia|].
  apply (proj2 (proj2 (proj2 (proj2 job_lifecycle)))); [reflexivity|simpl; lia].
Defined.

(** Fails twice, succeeds on the third attempt: DONE with attempts=3. *)
Example job_done_on_third_attempt :
  option_map (fun j => (job_status j, job_attempts j))
    (drive [claim 10; fail "timeout" 20; claim 30; fail "timeout" 40;
            claim 50; succeed 60] (enqueue 1 "m1" 0))
  = Some (DONE, 3).
Proof. reflexivity. Qed.

(** Fails three times: FAILED with attempts=3, and not claimable. *)
Example job_failed_after_three_attempts :
  option_map (fun j => (job_status j, job_attempts j, claim 70 j))
    (drive [claim 10; fail "timeout" 20; claim 30; fail "timeout" 40;
            claim 50; fail "timeout" 60] (enqueue 1 "m1" 0))
  = Some (FAILED, 3, None).
Proof. reflexivity. Qed.

End JobQueueFacts.

(** ** Assignment *)

Lemma toInt32_range x : - 2 ^ 31 <= toInt32 x < 2 ^ 31.
Proof.
  unfold toInt32.
  pose proof (Z.mod_pos_bound (x + 2 ^ 31) (2 ^ 32) ltac:(lia)). lia.
Qed.

Lemma toInt32_shift x : exists k, toInt32 x = x + 2 ^ 32 * k.
Proof.
  unfold toInt32. exists (- ((x + 2 ^ 31) / 2 ^ 32)).
  rewrite Z.mod_eq by lia. lia.
Qed.

Lemma toInt32_periodic x k : toInt32 (x + 2 ^ 32 * k) = toInt32 x.
Proof.
  unfold toInt32.
  replace (x + 2 ^ 32 * k + 2 ^ 31) with (x + 2 ^ 31 + k * 2 ^ 32) by lia.
  now rewrite Z_mod_plus_full.
Qed.

Lemma toInt32_odd x : Z.odd (toInt32 x) = Z.odd x.
Proof.
  destruct (toInt32_shift x) as [k ->].
  replace (x + 2 ^ 32 * k) with (x + 2 * (2 ^ 31 * k)) by lia.
  rewrite Z.odd_add_mul_2. reflexivity.
Qed.

Lemma hash_step_poly x c :
  AbTesting.hash_step (toInt32 x) c = toInt32 (31 * x + Js.code c).
Proof.
  unfold AbTesting.hash_step.
  destruct (toInt32_shift x) as [k0 E0]. rewrite E0.
  destruct (toInt32_shift ((x + 2 ^ 32 * k0) * 2 ^ 5)) as [k1 E1]. rewrite E1.
  replace ((x + 2 ^ 32 * k0) * 2 ^ 5 + 2 ^ 32 * k1 - (x + 2 ^ 32 * k0) + Js.code c)
    with (31 * x + Js.code c + 2 ^ 32 * (31 * k0 + k1)) by lia.
  apply toInt32_periodic.
Qed.

Lemma hash_loop_poly userId : forall x,
  AbTesting.hash_loop (toInt32 x) userId = toInt32 (poly31 x userId).
Proof.
  induction userId as [|c r IH]; simpl; intros x; auto.
  now rewrite hash_step_poly, IH.
Qed.

Lemma hash_loop_32bit userId :
  AbTesting.hash_loop 0 userId = toInt32 (poly31 0 userId)
  /\ - 2 ^ 31 <= AbTesting.hash_loop 0 userId < 2 ^ 31.
Proof.
  assert (E : AbTesting.hash_loop 0 userId = toInt32 (poly31 0 userId))
    by (change 0 with (toInt32 0) at 1; apply hash_loop_poly).
  split; [exact E|]. rewrite E. apply toInt32_range.
Qed.

Lemma abs_mod2_odd h : (Z.abs h mod 2 =? 1) = Z.odd h.
Proof.
  rewrite Zmod_odd.
  replace (Z.odd (Z.abs h)) with (Z.odd h) by (now destruct h).
  now destruct (Z.odd h).
Qed.

Lemma hash_assignment_parity userId :
  AbTesting.hash_assignment userId
  = if Z.odd (toInt32 (poly31 0 userId)) then TREATMENT else CONTROL.
Proof.
  unfold AbTesting.hash_assignment. destruct userId as [|c r]; [reflexivity|].
  rewrite abs_mod2_odd. now rewrite (proj1 (hash_loop_32bit (String c r))).
Qed.

(** The first hexadecimal digit of the digest, read back by [parseInt]. *)
Lemma parseInt16_hex_digit n :
  0 <= n < 16 -> parseInt16 (String (Md5.hex_digit n) EmptyString) = Some n.
Proof.
  intros H. rewrite <- (Z2Nat.id n) by lia.
  assert (Hm : (Z.to_nat n < 16)%nat) by lia.
  revert Hm. generalize (Z.to_nat n) as m. intros m Hm.
  do 16 (destruct m as [|m]; [reflexivity|]). lia.
Qed.

Lemma digest_first_byte userId :
  exists a r, Md5.digest userId = Z.land a 0xFF :: r.
Proof.
  unfold Md5.digest. cbv zeta.
  destruct (Md5.blocks _ _ _) as [[[a b] c] d].
  exists a. eexists.
  unfold Md5.le_bytes at 1. cbn [seq map app].
  change (8 * Z.of_nat 0) with 0. rewrite Z.shiftr_0_r. reflexivity.
Qed.

Lemma getAssignment_first_nibble userId :
  getAssignment userId
  = if Z.odd (Z.shiftr (hd 0 (Md5.digest userId)) 4) then TREATMENT else CONTROL.
Proof.
  unfold getAssignment, Md5.hex.
  destruct (digest_first_byte userId) as (a & r & ->). simpl hd.
  set (b := Z.land a 255).
  assert (Hb : 0 <= b < 256).
  { unfold b. change 255 with (Z.ones 8). rewrite Z.land_ones by lia.
    apply Z.mod_pos_bound. lia. }
  assert (Hn : 0 <= Z.shiftr b 4 < 16).
  { rewrite Z.shiftr_div_pow2 by lia. split.
    - apply Z.div_pos; lia.
    - apply Z.div_lt_upper_bound; lia. }
  cbn [Md5.hex_of_bytes].
  unfold Js.substring. cbn [Nat.sub String.substring].
  rewrite (parseInt16_hex_digit _ Hn).
  rewrite Zmod_odd. now destruct (Z.odd (Z.shiftr b 4)).
Qed.

(** C8 (as amended). The server's [getAssignment] is a pure, total
    function of the identifier: the parity of the first hexadecimal digit
    of the identifier's 128-bit MD5 digest, even for CONTROL and odd for
    TREATMENT.  The client's [getAssignment] returns the group stored as
    override in [localStorage] when one is stored, whatever the
    identifier; when the stored value is none of the two groups, or
    nothing is stored, its result does not depend on the store. *)
Theorem getAssignment_deterministic :
  (forall userId,
     getAssignment userId
     = if Z.odd (Z.shiftr (hd 0 (Md5.digest userId)) 4) then TREATMENT else CONTROL) /\
  (forall a localStorage userId,
     map_get "vn_assignment_override" localStorage = Some (Assignment_str a) ->
     AbTesting.getAssignment localStorage userId = a) /\
  (forall a localStorage,
     map_get "vn_assignment_override"
       (AbTesting.setAssignmentOverride (Some a) localStorage)
     = Some (Assignment_str a)) /\
  (forall localStorage userId,
     map_get "vn_assignment_override" localStorage <> Some "CONTROL" ->
     map_get "vn_assignment_override" localStorage <> Some "TREATMENT" ->
     AbTesting.getAssignment localStorage userId = AbTesting.getAssignment [] userId).
Proof.
  split; [exact getAssignment_first_nibble|split; [|split]].
  - intros a ls userId H. unfold AbTesting.getAssignment. rewrite H. now destruct a.
  - intros a ls. apply map_get_set_same.
  - intros ls userId Hc Ht. unfold AbTesting.getAssignment.
    destruct (map_get "vn_assignment_override" ls) as [v|]; [|reflexivity].
    destruct (String.eqb_spec v "CONTROL") as [->|Hvc]; [congruence|].
    destruct (String.eqb_spec v "TREATMENT") as [->|Hvt]; [congruence|].
    simpl.
    repeat match goal with
           | |- context [match ?x with _ => _ end] =>
               is_var x; destruct x; try reflexivity
           end; congruence.
Qed.

Lemma getAssignment_deterministic_witness :
  AbTesting.getAssignment [("vn_userid", sample_userId)] sample_userId
  = AbTesting.getAssignment [] sample_userId.
Proof.
  apply (proj2 (proj2 (proj2 getAssignment_deterministic))
           [("vn_userid", sample_userId)] sample_userId); discriminate.
Defined.

(** C8, as stated, fails on the client: the same identifier is put in two
    groups by two calls, depending on the stored override. *)
Lemma getAssignment_override_counterexample :
  AbTesting.getAssignment [] sample_userId
  <> AbTesting.getAssignment [("vn_assignment_override", "CONTROL")] sample_userId.
Proof. vm_compute. discriminate. Qed.

Example getAssignment_sample : getAssignment sample_userId = CONTROL.
Proof. vm_compute. reflexivity. Qed.

(** The client, with nothing stored, puts the same identifier in the
    other group: the two implementations hash differently. *)
Example getAssignment_client_sample :
  AbTesting.getAssignment [] sample_userId = TREATMENT.
Proof. vm_compute. reflexivity. Qed.

Example md5_rfc1321 :
  Md5.hex "" = "d41d8cd98f00b204e9800998ecf8427e"
  /\ Md5.hex "abc" = "900150983cd24fb0d6963f7d28e17f72"
  /\ Md5.hex "message digest" = "f96b697d7cb7938d525a2f31aaf161d0".
Proof. vm_compute. auto. Qed.

(** ** Tables *)

Lemma find_map {A} (p : A -> bool) (f : A -> A) (l : list A) :
  (forall x, p (f x) = p x) -> find p (map f l) = option_map f (find p l).
Proof.
  intros Hp. induction l as [|a r IH]; simpl; auto.
  rewrite Hp. now destruct (p a).
Qed.

Lemma find_snoc {A} (p : A -> bool) (l : list A) (x : A) :
  find p (l ++ [x])
  = match find p l with Some y => Some y | None => if p x then Some x else None end.
Proof. induction l as [|a r IH]; simpl; auto. now destruct (p a). Qed.

Lemma find_none_filter {A} (p : A -> bool) (l : list A) :
  find p l = None -> filter p l = [].
Proof.
  induction l as [|a r IH]; simpl; auto. destruct (p a); [discriminate|auto].
Qed.

Lemma filter_map_shrinks {A} (p : A -> bool) (f : A -> A) (l : list A) :
  (forall x, p (f x) = true -> p x = true) ->
  (List.length (filter p (map f l)) <= List.length (filter p l))%nat.
Proof.
  intros Hp. induction l as [|a r IH]; simpl; auto.
  destruct (p (f a)) eqn:E.
  - rewrite (Hp _ E). simpl. lia.
  - destruct (p a); simpl; lia.
Qed.

Lemma user_find_ids id d : prisma.user_find id d <> None <-> In id (user_ids d).
Proof.
  unfold prisma.user_find, user_ids. induction (users d) as [|u r IH]; simpl.
  - tauto.
  - destruct (String.eqb_spec (user_id u) id) as [E|E].
    + split; [auto|discriminate].
    + rewrite IH. intuition congruence.
Qed.

Lemma touch_keeps_ids (f : User -> User) (l : list User) :
  (forall u, user_id (f u) = user_id u) -> map user_id (map f l) = map user_id l.
Proof. intros H. rewrite map_map. apply map_ext. exact H. Qed.

Lemma user_upsert_ids id nickname a now d i :
  In i (user_ids (prisma.user_upsert id nickname a now d))
  <-> i = id \/ In i (user_ids d).
Proof.
  unfold prisma.user_upsert.
  destruct (prisma.user_find id d) eqn:E; unfold user_ids; simpl.
  - rewrite touch_keeps_ids by (intros u0; now destruct (String.eqb _ _)).
    split; auto. intros [->|H]; auto.
    apply user_find_ids. congruence.
  - rewrite map_app, in_app_iff. simpl. intuition.
Qed.

Lemma user_upsert_tables id nickname a now d :
  sessions (prisma.user_upsert id nickname a now d) = sessions d
  /\ session_seq (prisma.user_upsert id nickname a now d) = session_seq d
  /\ messages (prisma.user_upsert id nickname a now d) = messages d
  /\ jobs (prisma.user_upsert id nickname a now d) = jobs d.
Proof. unfold prisma.user_upsert. now destruct (prisma.user_find id d). Qed.

Lemma user_update_tables id now d d' :
  prisma.user_update_lastSeenAt id now d = Some d' ->
  user_ids d' = user_ids d /\ sessions d' = sessions d
  /\ session_seq d' = session_seq d /\ messages d' = messages d /\ jobs d' = jobs d.
Proof.
  unfold prisma.user_update_lastSeenAt.
  destruct (prisma.user_find id d); [|discriminate].
  intros H; inversion H; subst; clear H. unfold user_ids; simpl.
  rewrite touch_keeps_ids by (intros u0; now destruct (String.eqb _ _)). auto.
Qed.

Lemma user_update_succeeds id now d :
  In id (user_ids d) -> exists d', prisma.user_update_lastSeenAt id now d = Some d'.
Proof.
  intros H. apply user_find_ids in H. unfold prisma.user_update_lastSeenAt.
  destruct (prisma.user_find id d); [eauto|congruence].
Qed.

Lemma user_update_lastSeen id now d d' :
  prisma.user_update_lastSeenAt id now d = Some d' ->
  exists u, prisma.user_find id d' = Some u /\ user_lastSeenAt u = Some now.
Proof.
  unfold prisma.user_update_lastSeenAt.
  destruct (prisma.user_find id d) as [u|] eqn:E; [|discriminate].
  intros H; inversion H; subst; clear H.
  unfold prisma.user_find in *. simpl.
  induction (users d) as [|x r IH]; simpl in *; [discriminate|].
  destruct (String.eqb (user_id x) id) eqn:Ex; simpl.
  - rewrite Ex. eauto.
  - rewrite Ex. auto.
Qed.

Lemma session_update_tables id now d d' :
  prisma.session_update_endedAt id now d = Some d' ->
  users d' = users d /\ messages d' = messages d /\ jobs d' = jobs d
  /\ session_seq d' = session_seq d
  /\ sessions d'
     = map (fun s => if session_id s =? id
                     then mkSession (session_id s) (session_userId s)
                                    (session_startedAt s) (Some now)
                                    (session_durationSec s)
                     else s) (sessions d).
Proof.
  unfold prisma.session_update_endedAt.
  destruct (prisma.session_find id d); [|discriminate].
  intros H; inversion H; subst; clear H. simpl. auto.
Qed.

Lemma session_update_closes id now d d' s :
  prisma.session_update_endedAt id now d = Some d' ->
  prisma.session_find id d = Some s ->
  prisma.session_find id d'
  = Some (mkSession (session_id s) (session_userId s) (session_startedAt s)
                    (Some now) (session_durationSec s)).
Proof.
  intros Hu Hf. destruct (session_update_tables _ _ _ _ Hu) as (_ & _ & _ & _ & Hs).
  unfold prisma.session_find in *. rewrite Hs.
  rewrite find_map by (intros x; destruct (session_id x =? id) eqn:E; simpl; auto).
  rewrite Hf. simpl.
  apply find_some in Hf. destruct Hf as [_ Hid]. now rewrite Hid.
Qed.

Lemma message_create_tables id userId nick text mood intensity now d d' m :
  prisma.message_create id userId nick text mood intensity now d = Some (d', m) ->
  exists q, prisma.intensity_arg intensity = Some q
    /\ m = mkMessage id userId nick text now mood q None None
    /\ messages d' = messages d ++ [m]
    /\ users d' = users d /\ sessions d' = sessions d
    /\ session_seq d' = session_seq d /\ jobs d' = jobs d.
Proof.
  unfold prisma.message_create.
  destruct (prisma.message_find id d); [discriminate|].
  destruct (prisma.user_find userId d); [|discriminate].
  destruct (prisma.intensity_arg intensity) as [q|]; [|discriminate].
  intros H; inversion H; subst; clear H. exists q. simpl. auto 10.
Qed.

Lemma message_create_succeeds id userId nick text mood intensity now d q :
  prisma.message_find id d = None -> In userId (user_ids d) ->
  prisma.intensity_arg intensity = Some q ->
  exists d', prisma.message_create id userId nick text mood intensity now d
             = Some (d', mkMessage id userId nick text now mood q None None).
Proof.
  intros Hf Hu Hq. apply user_find_ids in Hu. unfold prisma.message_create.
  rewrite Hf, Hq. destruct (prisma.user_find userId d); [eauto|congruence].
Qed.

(** ** Sessions: handlers run one after the other *)

Ltac break_match :=
  match goal with
  | |- context [match ?x with _ => _ end] => destruct x eqn:?
  end.

Lemma findFirst_open_upsert userId id nickname a now d :
  prisma.session_findFirst_open userId (prisma.user_upsert id nickname a now d)
  = prisma.session_findFirst_open userId d.
Proof.
  unfold prisma.session_findFirst_open.
  now rewrite (proj1 (user_upsert_tables id nickname a now d)).
Qed.

(** Create or reuse: what [session:start] does to the Session table and to
    the entry of the socket, when the handler runs without another one in
    between. *)
Lemma session_start_create_or_reuse socketId payload now st userId nickname :
  SessionStartSchema payload = Some (userId, nickname) ->
  let st' := fst (session_start socketId payload now st) in
  match prisma.session_findFirst_open userId (db st) with
  | Some s =>
      sessions (db st') = sessions (db st)
      /\ map_get socketId (connectedClients st')
         = Some (mkClientData userId nickname (getAssignment userId) (session_id s))
  | None =>
      sessions (db st')
      = sessions (db st) ++ [mkSession (session_seq (db st) + 1) userId now None None]
      /\ map_get socketId (connectedClients st')
         = Some (mkClientData userId nickname (getAssignment userId)
                              (session_seq (db st) + 1))
  end.
Proof.
  intros Hv. unfold session_start. rewrite Hv, findFirst_open_upsert.
  pose proof (user_upsert_tables userId nickname (getAssignment userId) now (db st))
    as (Hs & Hq & _).
  destruct (prisma.session_findFirst_open userId (db st)) as [s|]; simpl;
    rewrite ?Hs, ?Hq, map_get_set_same; auto.
Qed.

Lemma session_start_rejects socketId payload now st :
  SessionStartSchema payload = None ->
  session_start socketId payload now st
  = (st, [socket_emit socketId "error:invalid_payload"
            (JObj [("message", JStr "Invalid payload for session:start")])]).
Proof. intros Hv. unfold session_start. now rewrite Hv. Qed.

Lemma open_sessions_snoc userId d s :
  filter (fun x => String.eqb (session_userId x) userId && prisma.is_open x)
         (sessions d ++ [s])
  = open_sessions userId d
    ++ (if String.eqb (session_userId s) userId && prisma.is_open s then [s] else []).
Proof. unfold open_sessions. rewrite filter_app. reflexivity. Qed.

Lemma session_start_one_open socketId payload now st :
  one_open_session (db st) ->
  one_open_session (db (fst (session_start socketId payload now st))).
Proof.
  intros Hinv. destruct (SessionStartSchema payload) as [[userId nickname]|] eqn:Hv.
  - pose proof (session_start_create_or_reuse socketId payload now st _ _ Hv) as H.
    cbv zeta in H. intros u. unfold open_sessions.
    destruct (prisma.session_findFirst_open userId (db st)) as [s|] eqn:Hf;
      destruct H as [H _]; rewrite H; [apply Hinv|].
    rewrite open_sessions_snoc. simpl. rewrite length_app.
    destruct (String.eqb_spec userId u) as [->|Hne]; simpl.
    + unfold prisma.session_findFirst_open in Hf.
      apply find_none_filter in Hf. unfold open_sessions. rewrite Hf. simpl. lia.
    + specialize (Hinv u). lia.
  - rewrite session_start_rejects by assumption. exact Hinv.
Qed.

Lemma message_send_tables socketId payload now messageId response st :
  let st' := fst (message_send socketId payload now messageId response st) in
  sessions (db st') = sessions (db st)
  /\ session_seq (db st') = session_seq (db st)
  /\ jobs (db st') = jobs (db st)
  /\ user_ids (db st') = user_ids (db st)
  /\ connectedClients st' = connectedClients st.
Proof.
  unfold message_send. repeat break_match; simpl; auto;
    repeat match goal with
           | H : prisma.message_create _ _ _ _ _ _ _ _ = Some _ |- _ =>
               apply message_create_tables in H;
               destruct H as (? & _ & _ & _ & ? & ? & ? & ?)
           | H : prisma.user_update_lastSeenAt _ _ _ = Some _ |- _ =>
               apply user_update_tables in H; destruct H as (? & ? & ? & _ & ?)
           end; unfold user_ids in *; intuition congruence.
Qed.

Lemma disconnect_db socketId now st :
  let st' := fst (disconnect socketId now st) in
  db st' = db st
  \/ exists clientData d1,
       map_get socketId (connectedClients st) = Some clientData
       /\ remainingConnections (client_userId clientData)
            (map_delete socketId (connectedClients st)) = 0
       /\ prisma.session_update_endedAt (client_sessionId clientData) now (db st) = Some d1
       /\ (db st' = d1
           \/ prisma.user_update_lastSeenAt (client_userId clientData) now d1
              = Some (db st')).
Proof.
  unfold disconnect.
  destruct (map_get socketId (connectedClients st)) as [cd|] eqn:Hc; simpl; auto.
  destruct (remainingConnections _ _ =? 0) eqn:Hr; simpl; auto.
  destruct (client_sessionId cd =? 0); simpl; auto.
  destruct (prisma.session_update_endedAt _ _ _) as [d1|] eqn:Hu; auto.
  right. exists cd, d1. apply Z.eqb_eq in Hr.
  destruct (prisma.user_update_lastSeenAt _ _ d1) eqn:Hl; auto 10.
Qed.

Lemma session_update_one_open id now d d' :
  prisma.session_update_endedAt id now d = Some d' ->
  one_open_session d -> one_open_session d'.
Proof.
  intros Hu Hinv u. destruct (session_update_tables _ _ _ _ Hu) as (_ & _ & _ & _ & Hs).
  unfold open_sessions. rewrite Hs.
  etransitivity; [apply filter_map_shrinks|apply Hinv].
  intros x. destruct (session_id x =? id); simpl; auto.
  rewrite andb_false_r. discriminate.
Qed.

Lemma disconnect_one_open socketId now st :
  one_open_session (db st) ->
  one_open_session (db (fst (disconnect socketId now st))).
Proof.
  intros Hinv.
  destruct (disconnect_db socketId now st) as [->|(cd & d1 & _ & _ & Hu & [->|Hl])]; auto.
  - eapply session_update_one_open; eauto.
  - apply user_update_tables in Hl. destruct Hl as (_ & Hs & _).
    intros u. unfold open_sessions. rewrite Hs.
    eapply session_update_one_open; eauto.
Qed.

Lemma handle_one_open e st :
  one_open_session (db st) -> one_open_session (db (fst (handle e st))).
Proof.
  destruct e; simpl; auto.
  - apply session_start_one_open.
  - intros Hinv u. unfold open_sessions.
    rewrite (proj1 (message_send_tables socketId payload now messageId response st)).
    apply Hinv.
  - apply disconnect_one_open.
Qed.

Lemma run_invariant (P : State -> Prop) :
  (forall e st, P st -> P (fst (handle e st))) ->
  forall es st, P st -> P (fst (run es st)).
Proof.
  intros Hstep. induction es as [|e r IH]; simpl; intros st HP; auto.
  specialize (Hstep e st HP). destruct (handle e st) as [st1 out1]. simpl in Hstep.
  specialize (IH st1 Hstep). destruct (run r st1) as [st2 out2]. exact IH.
Qed.

(** Invariant (a) for serial runs: when every handler runs to its end
    before the next one starts, no user ever has two open sessions. *)
Lemma serial_one_open_session st : reachable st -> one_open_session (db st).
Proof.
  intros [es <-].
  apply (run_invariant (fun s => one_open_session (db s))).
  - apply handle_one_open.
  - intros u. simpl. lia.
Qed.

(** The handler as a whole is its steps run without interruption. *)
Lemma session_start_as_steps socketId payload now st :
  session_start socketId payload now st
  = match start_begin socketId payload now with
    | inl t => start_run 5 now t st
    | inr e => (st, [e])
    end.
Proof.
  unfold session_start, start_begin.
  destruct (SessionStartSchema payload) as [[userId nickname]|]; [|reflexivity].
  cbn [start_run start_step task_pc task_at task_userId task_nickname
       task_assignment task_socketId db connectedClients rateLimits].
  rewrite findFirst_open_upsert.
  destruct (prisma.session_findFirst_open userId (db st)) as [s|]; reflexivity.
Qed.

(** ** Sessions: two joins of one user interleaved at their awaits *)

(** C1 fails on the code.  Two [session:start] events of one new user, on
    two sockets, whose handlers interleave at their awaits: both look up
    the open session before either creates one, both create a row, and
    the user has two open sessions. *)
Theorem session_start_race_two_open_sessions :
  start_begin "socketA" join_payload 1000 = inl join_A /\
  start_begin "socketB" join_payload 1001 = inl join_B /\
  let '(st, tasks, _) := interleave round_robin [join_A; join_B] init in
  map task_pc tasks = [finished; finished] /\
  open_sessions sample_userId (db st)
  = [mkSession 1 sample_userId 1004 None None;
     mkSession 2 sample_userId 1005 None None] /\
  ~ one_open_session (db st).
Proof.
  split; [vm_compute; reflexivity|]. split; [vm_compute; reflexivity|].
  vm_compute. split; [reflexivity|]. split; [reflexivity|].
  intros H. specialize (H sample_userId). vm_compute in H. lia.
Qed.

(** After the race the two sockets leave: the second close ends session
    2, and session 1 stays open with no connection. *)
Example session_start_race_leaves_open_session :
  let '(st, _, _) := interleave round_robin [join_A; join_B] init in
  let st' := fst (run [ev_disconnect "socketA" 2000; ev_disconnect "socketB" 3000] st) in
  sessions (db st')
  = [mkSession 1 sample_userId 1004 None None;
     mkSession 2 sample_userId 1005 (Some 3000) None]
  /\ connectedClients st' = [].
Proof. vm_compute. auto. Qed.

(** The same two joins, one handler after the other: one session. *)
Example session_start_serial_reuse :
  let st := fst (run [ev_session_start "socketA" join_payload 1000;
                      ev_session_start "socketB" join_payload 2000] init) in
  sessions (db st) = [mkSession 1 sample_userId 1000 None None]
  /\ map client_sessionId (map_values (connectedClients st)) = [1; 1].
Proof. vm_compute. auto. Qed.

(** ** Disconnect *)

Lemma disconnect_not_last socketId now st clientData :
  map_get socketId (connectedClients st) = Some clientData ->
  remainingConnections (client_userId clientData)
    (map_delete socketId (connectedClients st)) <> 0 ->
  db (fst (disconnect socketId now st)) = db st.
Proof.
  intros Hc Hr. unfold disconnect. rewrite Hc. simpl.
  destruct (Z.eqb_spec (remainingConnections (client_userId clientData)
              (map_delete socketId (connectedClients st))) 0); [contradiction|].
  reflexivity.
Qed.

Lemma disconnect_last socketId now st clientData s :
  map_get socketId (connectedClients st) = Some clientData ->
  remainingConnections (client_userId clientData)
    (map_delete socketId (connectedClients st)) = 0 ->
  prisma.session_find (client_sessionId clientData) (db st) = Some s ->
  client_sessionId clientData <> 0 ->
  In (client_userId clientData) (user_ids (db st)) ->
  let d' := db (fst (disconnect socketId now st)) in
  prisma.session_find (client_sessionId clientData) d'
  = Some (mkSession (session_id s) (session_userId s) (session_startedAt s)
                    (Some now) (session_durationSec s))
  /\ sessions d' = map (close_row (client_sessionId clientData) now) (sessions (db st))
  /\ exists u, prisma.user_find (client_userId clientData) d' = Some u
               /\ user_lastSeenAt u = Some now.
Proof.
  intros Hc Hr Hs Hid Hu. unfold disconnect. rewrite Hc. simpl. rewrite Hr.
  destruct (Z.eqb_spec (client_sessionId clientData) 0); [contradiction|]. simpl.
  destruct (prisma.session_update_endedAt (client_sessionId clientData) now (db st))
    as [d1|] eqn:Hupd.
  2:{ unfold prisma.session_update_endedAt in Hupd. rewrite Hs in Hupd. discriminate. }
  pose proof (session_update_closes _ _ _ _ _ Hupd Hs) as Hclosed.
  destruct (session_update_tables _ _ _ _ Hupd) as (Hus & _).
  assert (Hu1 : In (client_userId clientData) (user_ids d1))
    by (unfold user_ids; now rewrite Hus).
  destruct (user_update_succeeds _ now _ Hu1) as [d2 Hd2]. rewrite Hd2.
  destruct (user_update_tables _ _ _ _ Hd2) as (_ & Hss & _).
  split; [|split].
  - unfold prisma.session_find in *. now rewrite Hss.
  - rewrite Hss. destruct (session_update_tables _ _ _ _ Hupd) as (_ & _ & _ & _ & Hrows).
    exact Hrows.
  - eapply user_update_lastSeen; eauto.
Qed.

Lemma handle_no_duration e st :
  no_duration (db st) -> no_duration (db (fst (handle e st))).
Proof.
  unfold no_duration. destruct e; simpl; auto.
  - intros Hinv s. destruct (SessionStartSchema payload) as [[userId nickname]|] eqn:Hv.
    + pose proof (session_start_create_or_reuse socketId payload now st _ _ Hv) as H.
      cbv zeta in H.
      destruct (prisma.session_findFirst_open userId (db st));
        destruct H as [H _]; rewrite H; auto.
      rewrite in_app_iff. simpl. intros [Hin|[<-|[]]]; auto.
    + rewrite session_start_rejects by assumption. auto.
  - intros Hinv s.
    rewrite (proj1 (message_send_tables socketId payload now messageId response st)).
    auto.
  - intros Hinv s.
    assert (Hclose : forall d1 id, prisma.session_update_endedAt id now (db st) = Some d1 ->
                                   In s (sessions d1) -> session_durationSec s = None).
    { intros d1 id Hu. destruct (session_update_tables _ _ _ _ Hu) as (_ & _ & _ & _ & Hs).
      rewrite Hs, in_map_iff. intros (x & <- & Hx).
      destruct (session_id x =? id); simpl; auto. }
    destruct (disconnect_db socketId now st) as [->|(cd & d1 & _ & _ & Hu & [->|Hl])]; eauto.
    apply user_update_tables in Hl. destruct Hl as (_ & -> & _). eauto.
Qed.

Lemma durationSec_never_set st : reachable st -> no_duration (db st).
Proof.
  intros [es <-]. apply (run_invariant (fun s => no_duration (db s))).
  - apply handle_no_duration.
  - intros s [].
Qed.

(** C2 fails on the code in its duration.  One user, two connections
    (started at 1000 and 2000): closing the first at 3000 leaves the
    session open; closing the second at 9000 sets [endedAt] to 9000 and
    the user's [lastSeenAt] to 9000, and [durationSec] stays NULL where
    the specification has 9000 - 1000. *)
Theorem disconnect_last_leaves_duration_null :
  let joined := [ev_session_start "socketA" join_payload 1000;
                 ev_session_start "socketB" join_payload 2000] in
  let st1 := fst (run (joined ++ [ev_disconnect "socketA" 3000]) init) in
  let st2 := fst (run (joined ++ [ev_disconnect "socketA" 3000;
                                  ev_disconnect "socketB" 9000]) init) in
  sessions (db st1) = [mkSession 1 sample_userId 1000 None None] /\
  sessions (db st2) = [mkSession 1 sample_userId 1000 (Some 9000) None] /\
  map user_lastSeenAt (users (db st2)) = [Some 9000].
Proof. vm_compute. auto. Qed.

(** ** Validation *)

Lemma parse_string_min_max_trim lo hi v out :
  Zod.parse_string [Zod.min lo; Zod.max hi; Zod.trim] v = Some out
  <-> exists raw, v = Some (JStr raw)
        /\ lo <= Js.length raw /\ Js.length raw <= hi /\ out = Js.trim raw.
Proof.
  unfold Zod.parse_string. split.
  - destruct v as [[| | |raw| | |]|]; try discriminate. simpl.
    destruct (Z.leb_spec lo (Js.length raw)) as [Hl|Hl]; simpl; [|discriminate].
    destruct (Z.leb_spec (Js.length raw) hi) as [Hh|Hh]; simpl; [|discriminate].
    intros H; inversion H. exists raw. auto.
  - intros (raw & -> & Hlo & Hhi & ->). simpl.
    destruct (Z.leb_spec lo (Js.length raw)) as [Hl|Hl]; [|lia].
    destruct (Z.leb_spec (Js.length raw) hi) as [Hh|Hh]; [|lia]. reflexivity.
Qed.

Lemma parse_string_min_trim lo v out :
  Zod.parse_string [Zod.min lo; Zod.trim] v = Some out
  <-> exists raw, v = Some (JStr raw) /\ lo <= Js.length raw /\ out = Js.trim raw.
Proof.
  unfold Zod.parse_string. split.
  - destruct v as [[| | |raw| | |]|]; try discriminate. simpl.
    destruct (Z.leb_spec lo (Js.length raw)) as [Hl|Hl]; simpl; [|discriminate].
    intros H; inversion H. exists raw. auto.
  - intros (raw & -> & Hlo & ->). simpl.
    destruct (Z.leb_spec lo (Js.length raw)) as [Hl|Hl]; [|lia]. reflexivity.
Qed.

Lemma parse_string_uuid v out :
  Zod.parse_string [Zod.uuid] v = Some out
  <-> v = Some (JStr out) /\ Zod.is_uuid out = true.
Proof.
  unfold Zod.parse_string. split.
  - destruct v as [[| | |raw| | |]|]; try discriminate. simpl.
    destruct (Zod.is_uuid raw) eqn:E; simpl; [|discriminate].
    intros H; inversion H; subst. auto.
  - intros [-> E]. simpl. now rewrite E.
Qed.

(** What [SessionStartSchema] accepts: the length bounds are those of the
    nickname as sent; the trimmed nickname is what is handed on. *)
Lemma SessionStartSchema_accepts payload userId nickname :
  SessionStartSchema payload = Some (userId, nickname)
  <-> exists fields raw,
        payload = JObj fields
        /\ fields_get "userId" fields = Some (JStr userId)
        /\ Zod.is_uuid userId = true
        /\ fields_get "nickname" fields = Some (JStr raw)
        /\ 1 <= Js.length raw <= 20
        /\ nickname = Js.trim raw.
Proof.
  unfold SessionStartSchema, SessionStartSchema_userId, SessionStartSchema_nickname.
  split.
  - destruct payload as [| | | | | |fields]; try discriminate. simpl obj_get.
    destruct (Zod.parse_string [Zod.uuid] _) as [u|] eqn:Eu; [|discriminate].
    destruct (Zod.parse_string [Zod.min 1; _; _] _) as [n|] eqn:En; [|discriminate].
    intros H; inversion H; subst.
    apply parse_string_uuid in Eu. destruct Eu as [Eu1 Eu2].
    apply parse_string_min_max_trim in En. destruct En as (raw & En & ? & ? & ->).
    exists fields, raw. auto 10.
  - intros (fields & raw & -> & Hu & Huu & Hn & [Hlo Hhi] & ->). simpl obj_get.
    rewrite (proj2 (parse_string_uuid _ userId)) by auto.
    rewrite (proj2 (parse_string_min_max_trim 1 20 _ (Js.trim raw))); eauto 10.
Qed.

(** What [MessageSendSchema] accepts: a text of at least one character as
    sent; the trimmed text is what is handed on. *)
Lemma MessageSendSchema_accepts payload userId text :
  MessageSendSchema payload = Some (userId, text)
  <-> exists fields raw,
        payload = JObj fields
        /\ fields_get "userId" fields = Some (JStr userId)
        /\ Zod.is_uuid userId = true
        /\ fields_get "text" fields = Some (JStr raw)
        /\ 1 <= Js.length raw
        /\ text = Js.trim raw.
Proof.
  unfold MessageSendSchema, MessageSendSchema_userId, MessageSendSchema_text.
  split.
  - destruct payload as [| | | | | |fields]; try discriminate. simpl obj_get.
    destruct (Zod.parse_string [Zod.uuid] _) as [u|] eqn:Eu; [|discriminate].
    destruct (Zod.parse_string [Zod.min 1; _] _) as [n|] eqn:En; [|discriminate].
    intros H; inversion H; subst.
    apply parse_string_uuid in Eu. destruct Eu as [Eu1 Eu2].
    apply parse_string_min_trim in En. destruct En as (raw & En & ? & ->).
    exists fields, raw. auto 10.
  - intros (fields & raw & -> & Hu & Huu & Hn & Hlo & ->). simpl obj_get.
    rewrite (proj2 (parse_string_uuid _ userId)) by auto.
    rewrite (proj2 (parse_string_min_trim 1 _ (Js.trim raw))); eauto 10.
Qed.

(** A payload refused by the schema: the sender is told, nothing changes. *)
Lemma message_send_invalid socketId payload now messageId response st clientData :
  map_get socketId (connectedClients st) = Some clientData ->
  MessageSendSchema payload = None ->
  message_send socketId payload now messageId response st
  = (st, [socket_emit socketId "error:invalid_payload"
            (JObj [("message", JStr "Invalid payload")])]).
Proof. intros Hc Hv. unfold message_send. now rewrite Hc, Hv. Qed.

(** A text that is empty as sent, or no string at all, is refused. *)
Lemma MessageSendSchema_rejects_empty fields userId :
  fields_get "text" fields = Some (JStr "") \/ fields_get "text" fields = None ->
  MessageSendSchema (JObj (("userId", JStr userId) :: fields)) = None.
Proof.
  intros H. destruct (MessageSendSchema _) as [[u t]|] eqn:E; auto.
  apply MessageSendSchema_accepts in E.
  destruct E as (fs & raw & Hp & _ & _ & Ht & Hlen & _).
  inversion Hp; subst. simpl in Ht.
  destruct H as [H|H]; rewrite H in Ht; inversion Ht; subst.
  unfold Js.length in Hlen. simpl in Hlen. lia.
Qed.

(** ** Sending a message *)

Lemma geb_ltb x y : (x >=? y) = negb (x <? y).
Proof. rewrite Z.geb_leb, Z.ltb_antisym. now rewrite negb_involutive. Qed.

Lemma message_send_admitted socketId payload now messageId response st clientData text :
  admitted socketId payload now st = Some (clientData, text) ->
  message_send socketId payload now messageId response st
  = let userId := client_userId clientData in
    let limits := counted userId now (rateLimits st) in
    match prisma.message_create messageId userId (client_nickname clientData) text
            (fst (infer response)) (snd (infer response)) now (db st) with
    | None => (mkState (db st) (connectedClients st) limits, [])
    | Some (db1, savedMessage) =>
        match prisma.user_update_lastSeenAt userId now db1 with
        | None => (mkState db1 (connectedClients st) limits, [])
        | Some db2 =>
            (mkState db2 (connectedClients st) limits,
             [io_emit "message:new" (JObj [("message", messageDTO savedMessage)])])
        end
    end.
Proof.
  unfold admitted, message_send, counted.
  destruct (map_get socketId (connectedClients st)) as [cd|]; [|discriminate].
  destruct (MessageSendSchema payload) as [[u t]|]; [|discriminate].
  destruct (String.eqb u (client_userId cd)); simpl; [|discriminate].
  rewrite geb_ltb.
  destruct (count _ <? RATE_LIMIT_MAX_MESSAGES); simpl; [|discriminate].
  intros H; inversion H; subst. now destruct (infer response).
Qed.

(** A send that is not admitted changes nothing. *)
Lemma message_send_not_admitted socketId payload now messageId response st :
  admitted socketId payload now st = None ->
  fst (message_send socketId payload now messageId response st) = st.
Proof.
  unfold admitted, message_send.
  destruct (map_get socketId (connectedClients st)) as [cd|]; auto.
  destruct (MessageSendSchema payload) as [[u t]|]; auto.
  destruct (String.eqb u (client_userId cd)); simpl; auto.
  rewrite geb_ltb.
  destruct (count _ <? RATE_LIMIT_MAX_MESSAGES); simpl; auto. discriminate.
Qed.

Lemma session_start_users socketId payload now st userId nickname :
  SessionStartSchema payload = Some (userId, nickname) ->
  let st' := fst (session_start socketId payload now st) in
  (forall i, In i (user_ids (db st')) <-> i = userId \/ In i (user_ids (db st)))
  /\ exists sessionId,
       connectedClients st'
       = map_set socketId (mkClientData userId nickname (getAssignment userId) sessionId)
                 (connectedClients st).
Proof.
  intros Hv. unfold session_start. rewrite Hv.
  destruct (prisma.session_findFirst_open userId _) as [s|]; simpl; split;
    try (intros i; apply user_upsert_ids); eauto.
Qed.

Lemma handle_clients_known e st :
  clients_known st -> clients_known (fst (handle e st)).
Proof.
  unfold clients_known. destruct e; simpl.
  - intros Hinv sid cd.
    destruct (SessionStartSchema payload) as [[userId nickname]|] eqn:Hv.
    + destruct (session_start_users socketId payload now st _ _ Hv) as (Hu & x & ->).
      intros Hin. apply Hu. apply map_set_In in Hin.
      destruct Hin as [[-> ->]|Hin]; simpl; eauto.
    + rewrite session_start_rejects by assumption. apply Hinv.
  - intros Hinv sid cd.
    destruct (message_send_tables socketId payload now messageId response st)
      as (_ & _ & _ & -> & ->). apply Hinv.
  - intros Hinv sid cd Hin.
    assert (Hold : In (sid, cd) (connectedClients st)).
    { revert Hin. unfold disconnect.
      destruct (map_get socketId (connectedClients st)); simpl; auto.
      apply map_delete_In. }
    specialize (Hinv _ _ Hold).
    destruct (disconnect_db socketId now st) as [->|(c & d1 & _ & _ & Hu & [->|Hl])]; auto.
    + destruct (session_update_tables _ _ _ _ Hu) as (Hus & _).
      unfold user_ids. now rewrite Hus.
    + destruct (session_update_tables _ _ _ _ Hu) as (Hus & _).
      apply user_update_tables in Hl. destruct Hl as (-> & _).
      unfold user_ids. now rewrite Hus.
  - intros _ sid cd [].
Qed.

Lemma reachable_clients_known st : reachable st -> clients_known st.
Proof.
  intros [es <-]. apply (run_invariant clients_known).
  - apply handle_clients_known.
  - intros sid cd [].
Qed.

(** The outcome of an admitted send whose message id is new and whose
    intensity is a number (or absent): one row in Message, one broadcast,
    the counter incremented. *)
Lemma message_send_persists socketId payload now messageId response st clientData text q :
  reachable st ->
  admitted socketId payload now st = Some (clientData, text) ->
  prisma.message_find messageId (db st) = None ->
  prisma.intensity_arg (snd (infer response)) = Some q ->
  let m := mkMessage messageId (client_userId clientData) (client_nickname clientData)
                     text now (fst (infer response)) q None None in
  exists st',
    message_send socketId payload now messageId response st
    = (st', [io_emit "message:new" (JObj [("message", messageDTO m)])])
    /\ messages (db st') = messages (db st) ++ [m]
    /\ jobs (db st') = jobs (db st)
    /\ rateLimits st' = counted (client_userId clientData) now (rateLimits st).
Proof.
  intros Hreach Hadm Hfresh Hq m.
  assert (Hknown : In (client_userId clientData) (user_ids (db st))).
  { apply (reachable_clients_known st Hreach socketId).
    apply map_get_In. unfold admitted in Hadm.
    destruct (map_get socketId (connectedClients st)) as [cd|]; [|discriminate].
    destruct (MessageSendSchema payload) as [[u t]|]; [|discriminate].
    destruct (_ && _); inversion Hadm; subst. reflexivity. }
  rewrite (message_send_admitted _ _ _ _ _ _ _ _ Hadm). cbv zeta.
  destruct (message_create_succeeds messageId (client_userId clientData)
              (client_nickname clientData) text (fst (infer response))
              (snd (infer response)) now (db st) q Hfresh Hknown Hq) as [d1 Hc].
  rewrite Hc.
  destruct (message_create_tables _ _ _ _ _ _ _ _ _ _ Hc)
    as (q' & _ & _ & Hm & Hus & _ & _ & Hj).
  assert (Hk1 : In (client_userId clientData) (user_ids d1))
    by (unfold user_ids; now rewrite Hus).
  destruct (user_update_succeeds _ now _ Hk1) as [d2 Hd2]. rewrite Hd2.
  destruct (user_update_tables _ _ _ _ Hd2) as (_ & _ & _ & Hm2 & Hj2).
  eexists. split; [reflexivity|]. simpl. rewrite Hm2, Hj2, Hm, Hj. auto.
Qed.

Lemma joined_state_reachable : reachable joined_state.
Proof. exists [ev_session_start "socketA" join_payload 1000]. reflexivity. Qed.





(** C10. When the classifier call of an admitted send fails (the fetch
    rejects) or answers with a non-ok response, the message is persisted
    with mood NEUTRAL and intensity 0, and the one event sent is the
    [message:new] broadcast, whose message carries the id, the sender,
    the nickname, the text, the time, mood NEUTRAL and intensity 0: the
    send goes through. *)
Theorem classifier_outage_keeps_send
    socketId payload now messageId response st clientData text :
  reachable st ->
  admitted socketId payload now st = Some (clientData, text) ->
  prisma.message_find messageId (db st) = None ->
  response = fetch_rejects \/ (exists body, response = fetch_response false body) ->
  exists st',
    message_send socketId payload now messageId response st
    = (st', [io_emit "message:new"
               (JObj [("message",
                       JObj [("id", JStr messageId);
                             ("userId", JStr (client_userId clientData));
                             ("nicknameSnapshot", JStr (client_nickname clientData));
                             ("text", JStr text);
                             ("createdAt", JIso now);
                             ("mood", JStr "NEUTRAL");
                             ("intensity", JNum 0)])])])
    /\ messages (db st')
       = messages (db st)
         ++ [mkMessage messageId (client_userId clientData)
                       (client_nickname clientData) text now "NEUTRAL" 0%Q None None].
Proof.
  intros Hreach Hadm Hfresh Hresp.
  assert (Hinfer : infer response = ("NEUTRAL", Some (JNum 0)))
    by (destruct Hresp as [->|[body ->]]; reflexivity).
  destruct (message_send_persists socketId payload now messageId response st
              clientData text 0%Q Hreach Hadm Hfresh)
    as (st' & Hsend & Hmsgs & _).
  { now rewrite Hinfer. }
  rewrite Hinfer in Hsend, Hmsgs. exists st'. split; [exact Hsend|exact Hmsgs].
Qed.

Lemma classifier_outage_keeps_send_witness :
  exists st',
    message_send "socketA" hello 1500 "m1" fetch_rejects joined_state
    = (st', [io_emit "message:new"
               (JObj [("message",
                       JObj [("id", JStr "m1");
                             ("userId", JStr sample_userId);
                             ("nicknameSnapshot", JStr "Verifier");
                             ("text", JStr "hello");
                             ("createdAt", JIso 1500);
                             ("mood", JStr "NEUTRAL");
                             ("intensity", JNum 0)])])])
    /\ messages (db st')
       = messages (db joined_state)
         ++ [mkMessage "m1" sample_userId "Verifier" "hello" 1500 "NEUTRAL" 0%Q None None].
Proof.
  apply (classifier_outage_keeps_send "socketA" hello 1500 "m1" fetch_rejects
           joined_state (mkClientData sample_userId "Verifier" CONTROL 1) "hello").
  - exact joined_state_reachable.
  - vm_compute. reflexivity.
  - vm_compute. reflexivity.
  - left. reflexivity.
Defined.










(** C7 fails on the code.  A message text of three spaces passes the
    schema, because [min(1)] is checked before [trim()]: the send is
    admitted, a message with the empty text is stored and broadcast, and
    no [error:invalid_payload] is sent.  A nickname of three spaces
    passes in the same way and the user is created with the empty
    nickname. *)
Theorem whitespace_only_text_accepted :
  Js.trim "   " = "" /\
  MessageSendSchema blank_text = Some (sample_userId, "") /\
  (let '(st', out) := message_send "socketA" blank_text 1500 "m1" fetch_rejects
                                   joined_state in
   map message_text (messages (db st')) = [""]
   /\ map event_of out = ["message:new"]) /\
  SessionStartSchema blank_nickname = Some (sample_userId, "") /\
  (let '(st', out) := session_start "socketA" blank_nickname 1000 init in
   map user_nickname (users (db st')) = [""]
   /\ map event_of out = ["session:ack"; "presence:update"]).
Proof. vm_compute. auto 10. Qed.

(** What validation does refuse: a nickname of more than 20 characters as
    sent, an empty nickname and an empty text are refused, the sender is
    told and the state is unchanged. *)
Lemma invalid_payload_no_mutation :
  (forall socketId payload now st,
     SessionStartSchema payload = None ->
     session_start socketId payload now st
     = (st, [socket_emit socketId "error:invalid_payload"
               (JObj [("message", JStr "Invalid payload for session:start")])])) /\
  (forall socketId payload now messageId response st clientData,
     map_get socketId (connectedClients st) = Some clientData ->
     MessageSendSchema payload = None ->
     message_send socketId payload now messageId response st
     = (st, [socket_emit socketId "error:invalid_payload"
               (JObj [("message", JStr "Invalid payload")])])) /\
  (forall fields userId raw,
     fields_get "nickname" fields = Some (JStr raw) ->
     Js.length raw < 1 \/ 20 < Js.length raw ->
     SessionStartSchema (JObj (("userId", JStr userId) :: fields)) = None).
Proof.
  split; [exact session_start_rejects|]. split; [exact message_send_invalid|].
  intros fields userId raw Hn Hlen.
  destruct (SessionStartSchema _) as [[u n]|] eqn:E; auto.
  apply SessionStartSchema_accepts in E.
  destruct E as (fs & raw' & Hp & _ & _ & Hn' & Hb & _).
  inversion Hp; subst. simpl in Hn'. rewrite Hn in Hn'. inversion Hn'; subst. lia.
Qed.

(** ** Rate limiter *)

Lemma current_window_elapsed userId now st :
  window_elapsed userId now st ->
  current_window userId now (rateLimits st) = mkLimitData 0 now.
Proof.
  unfold window_elapsed, limit_of, current_window.
  destruct (map_get userId (rateLimits st)) as [l|]; auto.
  intros H. destruct (Z.gtb_spec (now - startTime l) RATE_LIMIT_WINDOW_MS); auto. lia.
Qed.

Lemma current_window_running userId now st c t0 :
  limit_of userId st = Some (mkLimitData c t0) ->
  now - t0 <= RATE_LIMIT_WINDOW_MS ->
  current_window userId now (rateLimits st) = mkLimitData c t0.
Proof.
  unfold limit_of, current_window. intros -> H. simpl.
  destruct (Z.gtb_spec (now - t0) RATE_LIMIT_WINDOW_MS); auto. lia.
Qed.

Lemma send_under_limit socketId payload st clientData s c t0 :
  may_send socketId payload st clientData ->
  current_window (client_userId clientData) (send_now s) (rateLimits st)
  = mkLimitData c t0 ->
  c < RATE_LIMIT_MAX_MESSAGES ->
  let st' := fst (handle (send_event socketId payload s) st) in
  may_send socketId payload st' clientData
  /\ limit_of (client_userId clientData) st' = Some (mkLimitData (c + 1) t0).
Proof.
  intros [Hc [text Hv]] Hw Hlt. simpl.
  assert (Hadm : admitted socketId payload (send_now s) st = Some (clientData, text)).
  { unfold admitted. rewrite Hc, Hv, String.eqb_refl, Hw. simpl.
    destruct (Z.ltb_spec c RATE_LIMIT_MAX_MESSAGES); [reflexivity|lia]. }
  split.
  - split; [|eauto].
    now rewrite (proj2 (proj2 (proj2 (proj2
          (message_send_tables socketId payload (send_now s) (send_messageId s)
             (send_response s) st))))).
  - rewrite (message_send_admitted _ _ _ (send_messageId s) (send_response s) _ _ _ Hadm).
    cbv zeta. unfold limit_of.
    repeat break_match; simpl; unfold counted; rewrite Hw; apply map_get_set_same.
Qed.

Lemma send_over_limit socketId payload st clientData s c t0 :
  may_send socketId payload st clientData ->
  current_window (client_userId clientData) (send_now s) (rateLimits st)
  = mkLimitData c t0 ->
  RATE_LIMIT_MAX_MESSAGES <= c ->
  handle (send_event socketId payload s) st = (st, [rate_limited_signal socketId]).
Proof.
  intros [Hc [text Hv]] Hw Hge. simpl. unfold message_send.
  rewrite Hc, Hv, String.eqb_refl, Hw. simpl.
  destruct (Z.geb_spec c RATE_LIMIT_MAX_MESSAGES); [reflexivity|lia].
Qed.

Lemma run_snoc es e st :
  fst (run (es ++ [e]) st) = fst (handle e (fst (run es st))).
Proof.
  revert st. induction es as [|x r IH]; simpl; intros st.
  - destruct (handle e st). reflexivity.
  - destruct (handle x st) as [st1 out1]. specialize (IH st1).
    destruct (run (r ++ [e]) st1), (run r st1). exact IH.
Qed.

(** Sends inside a running window, as long as the count stays within the
    limit: each one is counted. *)
Lemma sends_within_window socketId payload clientData t0 (more : list Send) :
  forall st c,
    may_send socketId payload st clientData ->
    limit_of (client_userId clientData) st = Some (mkLimitData c t0) ->
    c + Z.of_nat (List.length more) <= RATE_LIMIT_MAX_MESSAGES ->
    Forall (fun s => send_now s - t0 <= RATE_LIMIT_WINDOW_MS) more ->
    let st' := fst (run (map (send_event socketId payload) more) st) in
    may_send socketId payload st' clientData
    /\ limit_of (client_userId clientData) st'
       = Some (mkLimitData (c + Z.of_nat (List.length more)) t0).
Proof.
  induction more as [|s r IH]; intros st c Hmay Hlim Hlen Hwin.
  - simpl. rewrite Z.add_0_r. auto.
  - inversion Hwin as [|? ? Hs Hr]; subst.
    cbn [List.length] in Hlen. rewrite Nat2Z.inj_succ in Hlen.
    pose proof (current_window_running _ _ _ _ _ Hlim Hs) as Hw.
    destruct (send_under_limit socketId payload st clientData s c t0 Hmay Hw
                ltac:(lia)) as [Hmay1 Hlim1].
    cbn [map run List.length]. rewrite Nat2Z.inj_succ.
    destruct (handle (send_event socketId payload s) st) as [st1 out1].
    simpl in Hmay1, Hlim1.
    specialize (IH st1 (c + 1) Hmay1 Hlim1 ltac:(lia) Hr). cbv zeta in IH.
    destruct (run (map (send_event socketId payload) r) st1) as [st2 out2].
    simpl in *. replace (c + Z.succ (Z.of_nat (List.length r)))
      with (c + 1 + Z.of_nat (List.length r)) by lia. exact IH.
Qed.

Lemma Forall_firstn_of {A} (P : A -> Prop) (l : list A) :
  Forall P l -> forall k, Forall P (firstn k l).
Proof.
  induction 1 as [|x r Hx Hr IH]; intros [|k]; simpl; constructor; auto.
Qed.

(** C6 (as amended).  With MAX_MESSAGES=5 and WINDOW_MS=5000, for a
    joined socket sending valid messages: a first send that finds no
    window or an elapsed one opens a window at its own time, and it and
    the four next sends within that window pass the limiter, each one
    incrementing the count by one; a sixth send within the window is
    rejected, changes nothing and gets [error:rate_limited] whose payload
    is the fixed message; a send after the window has elapsed is counted
    as the first of a new window. *)
Theorem rate_limit_window socketId payload st clientData first more sixth later :
  may_send socketId payload st clientData ->
  window_elapsed (client_userId clientData) (send_now first) st ->
  List.length more = 4%nat ->
  Forall (fun s => send_now s - send_now first <= RATE_LIMIT_WINDOW_MS) more ->
  send_now sixth - send_now first <= RATE_LIMIT_WINDOW_MS ->
  send_now later - send_now first > RATE_LIMIT_WINDOW_MS ->
  let burst k := map (send_event socketId payload) (first :: firstn k more) in
  let st5 := fst (run (burst 4%nat) st) in
  (forall k, (k <= 4)%nat ->
     limit_of (client_userId clientData) (fst (run (burst k) st))
     = Some (mkLimitData (1 + Z.of_nat k) (send_now first))) /\
  handle (send_event socketId payload sixth) st5 = (st5, [rate_limited_signal socketId]) /\
  limit_of (client_userId clientData)
           (fst (handle (send_event socketId payload later) st5))
  = Some (mkLimitData 1 (send_now later)).
Proof.
  intros Hmay Hfresh Hlen Hwin Hsixth Hlater burst st5.
  assert (Hburst : forall k, (k <= 4)%nat ->
            may_send socketId payload (fst (run (burst k) st)) clientData
            /\ limit_of (client_userId clientData) (fst (run (burst k) st))
               = Some (mkLimitData (1 + Z.of_nat k) (send_now first))).
  { intros k Hk. unfold burst. cbn [map run].
    destruct (send_under_limit socketId payload st clientData first 0 (send_now first)
                Hmay (current_window_elapsed _ _ _ Hfresh)
                ltac:(unfold RATE_LIMIT_MAX_MESSAGES; lia)) as [Hmay1 Hlim1].
    destruct (handle (send_event socketId payload first) st) as [st1 out1].
    simpl in Hmay1, Hlim1.
    assert (Hl : List.length (firstn k more) = k)
      by (apply firstn_length_le; lia).
    pose proof (sends_within_window socketId payload clientData (send_now first)
                  (firstn k more) st1 1 Hmay1 Hlim1
                  ltac:(rewrite Hl; unfold RATE_LIMIT_MAX_MESSAGES; lia)
                  (Forall_firstn_of _ _ Hwin k)) as H.
    cbv zeta in H. rewrite Hl in H.
    destruct (run (map (send_event socketId payload) (firstn k more)) st1). exact H. }
  split; [intros k Hk; apply (Hburst k Hk)|].
  destruct (Hburst 4%nat ltac:(lia)) as [Hmay5 Hlim5]. fold st5 in Hmay5, Hlim5.
  change (1 + Z.of_nat 4) with 5 in Hlim5.
  split.
  - apply (send_over_limit socketId payload st5 clientData sixth 5 (send_now first));
      auto.
    + now apply current_window_running.
    + unfold RATE_LIMIT_MAX_MESSAGES. lia.
  - assert (Hel : window_elapsed (client_userId clientData) (send_now later) st5)
      by (unfold window_elapsed; rewrite Hlim5; simpl; exact Hlater).
    apply (send_under_limit socketId payload st5 clientData later 0 (send_now later)
             Hmay5 (current_window_elapsed _ _ _ Hel)).
    unfold RATE_LIMIT_MAX_MESSAGES. lia.
Qed.

Lemma rate_limit_window_witness :
  limit_of sample_userId after_flood = Some (mkLimitData 5 1500) /\
  handle (send_event "socketA" hello (mkSend 1505 "m6" fetch_rejects)) after_flood
  = (after_flood, [rate_limited_signal "socketA"]) /\
  limit_of sample_userId
    (fst (handle (send_event "socketA" hello (mkSend 6501 "m7" fetch_rejects)) after_flood))
  = Some (mkLimitData 1 6501).
Proof.
  assert (Hmay : may_send "socketA" hello joined_state
                   (mkClientData sample_userId "Verifier" CONTROL 1)).
  { split; [vm_compute; reflexivity|]. exists "hello". vm_compute. reflexivity. }
  assert (Hwin : Forall (fun s => send_now s - 1500 <= RATE_LIMIT_WINDOW_MS) flood).
  { unfold RATE_LIMIT_WINDOW_MS, flood. repeat constructor; simpl; lia. }
  destruct (rate_limit_window "socketA" hello joined_state
              (mkClientData sample_userId "Verifier" CONTROL 1)
              (mkSend 1500 "m1" fetch_rejects) flood
              (mkSend 1505 "m6" fetch_rejects) (mkSend 6501 "m7" fetch_rejects)
              Hmay I eq_refl Hwin
              ltac:(unfold RATE_LIMIT_WINDOW_MS; simpl; lia)
              ltac:(unfold RATE_LIMIT_WINDOW_MS; simpl; lia))
    as (Hcount & Hsixth & Hlater).
  split; [exact (Hcount 4%nat (le_n 4))|]. split; [exact Hsixth|exact Hlater].
Defined.

(** C6, as stated, fails in the signal: the sixth send in the window is
    answered by [error:rate_limited] with a message and no
    [retryAfterMs]. *)
Lemma rate_limited_without_retry_after_counterexample :
  exists payload,
    snd (handle (send_event "socketA" hello (mkSend 1505 "m6" fetch_rejects)) after_flood)
    = [socket_emit "socketA" "error:rate_limited" payload]
    /\ obj_get "retryAfterMs" payload = None
    /\ obj_get "retryAfterMs" payload
       <> Some (JNum (inject_Z (RATE_LIMIT_WINDOW_MS - (1505 - 1500)))).
Proof.
  eexists. split; [vm_compute; reflexivity|]. split; [reflexivity|discriminate].
Qed.

(** ** Sessions and presence together, in serial runs *)

Lemma session_update_rows id now d d' :
  prisma.session_update_endedAt id now d = Some d' ->
  sessions d' = map (close_row id now) (sessions d).
Proof. intros H. now destruct (session_update_tables _ _ _ _ H) as (_ & _ & _ & _ & ->). Qed.

Lemma close_row_id id now s : session_id (close_row id now s) = session_id s.
Proof. unfold close_row. now destruct (session_id s =? id). Qed.

Lemma close_row_other id now s : session_id s <> id -> close_row id now s = s.
Proof. unfold close_row. intros H. destruct (Z.eqb_spec (session_id s) id); congruence. Qed.

Lemma session_find_unique s d :
  NoDup (map session_id (sessions d)) -> In s (sessions d) ->
  prisma.session_find (session_id s) d = Some s.
Proof.
  unfold prisma.session_find. induction (sessions d) as [|x r IH]; simpl; [tauto|].
  intros Hnd Hin. inversion Hnd as [|? ? Hnotin Hr]; subst.
  destruct Hin as [->|Hin].
  - now rewrite Z.eqb_refl.
  - destruct (Z.eqb_spec (session_id x) (session_id s)) as [E|E]; auto.
    exfalso. apply Hnotin. rewrite E. now apply in_map.
Qed.

Lemma session_start_effect socketId payload now st userId nickname :
  SessionStartSchema payload = Some (userId, nickname) ->
  let st' := fst (session_start socketId payload now st) in
  exists sessionId,
    connectedClients st'
    = map_set socketId (mkClientData userId nickname (getAssignment userId) sessionId)
              (connectedClients st)
    /\ ((exists s, In s (sessions (db st)) /\ session_id s = sessionId
                   /\ session_userId s = userId /\ session_endedAt s = None
                   /\ sessions (db st') = sessions (db st)
                   /\ session_seq (db st') = session_seq (db st))
        \/ (sessionId = session_seq (db st) + 1
            /\ sessions (db st')
               = sessions (db st) ++ [mkSession sessionId userId now None None]
            /\ session_seq (db st') = sessionId)).
Proof.
  intros Hv. unfold session_start. rewrite Hv, findFirst_open_upsert.
  pose proof (user_upsert_tables userId nickname (getAssignment userId) now (db st))
    as (Hs & Hq & _).
  destruct (prisma.session_findFirst_open userId (db st)) as [s|] eqn:Hf; simpl.
  - exists (session_id s). split; [reflexivity|]. left. exists s.
    unfold prisma.session_findFirst_open in Hf. apply find_some in Hf.
    destruct Hf as [Hin Hp]. apply andb_prop in Hp. destruct Hp as [Hu Ho].
    apply String.eqb_eq in Hu. unfold prisma.is_open in Ho.
    destruct (session_endedAt s) eqn:He; [discriminate|]. auto 10.
  - rewrite Hs, Hq. exists (session_seq (db st) + 1). split; [reflexivity|].
    right. auto.
Qed.

Lemma handle_sessions_numbered e st :
  sessions_numbered (db st) -> sessions_numbered (db (fst (handle e st))).
Proof.
  intros (Hnd & Hz & Hb).
  assert (Hsame : forall d1, sessions d1 = sessions (db st) ->
                             session_seq d1 = session_seq (db st) ->
                             sessions_numbered d1).
  { intros d1 Hs Hq. unfold sessions_numbered. rewrite Hs, Hq. auto. }
  destruct e; simpl; [| | |apply Hsame; reflexivity].
  - destruct (SessionStartSchema payload) as [[userId nickname]|] eqn:Hv.
    + destruct (session_start_effect socketId payload now st _ _ Hv)
        as (x & _ & [(s & _ & _ & _ & _ & Hs & Hq)|(Hx & Hs & Hq)]).
      * now apply Hsame.
      * unfold sessions_numbered. rewrite Hs, Hq. split; [|split; [lia|]].
        -- rewrite map_app. simpl. apply NoDup_app; auto.
           ++ constructor; [intros []|constructor].
           ++ intros i Hi [<-|[]]. apply in_map_iff in Hi.
              destruct Hi as (s & Hs1 & Hs2). specialize (Hb s Hs2). lia.
        -- intros s. rewrite in_app_iff. simpl.
           intros [Hin|[<-|[]]]; [specialize (Hb s Hin); lia|simpl; lia].
    + rewrite session_start_rejects by assumption. now apply Hsame.
  - destruct (message_send_tables socketId payload now messageId response st)
      as (Hs & Hq & _). now apply Hsame.
  - assert (Hclosed : forall d1 id,
              sessions d1 = map (close_row id now) (sessions (db st)) ->
              session_seq d1 = session_seq (db st) -> sessions_numbered d1).
    { intros d1 id Hs Hq. unfold sessions_numbered. rewrite Hs, Hq.
      split; [|split; [exact Hz|]].
      - rewrite map_map.
        rewrite (map_ext _ session_id (close_row_id id now)). exact Hnd.
      - intros s. rewrite in_map_iff. intros (x & <- & Hx).
        rewrite close_row_id. auto. }
    destruct (disconnect_db socketId now st) as [->|(c & d1 & _ & _ & Hu & [->|Hl])].
    + now apply Hsame.
    + apply (Hclosed d1 (client_sessionId c)).
      * now apply session_update_rows.
      * now destruct (session_update_tables _ _ _ _ Hu) as (_ & _ & _ & ? & _).
    + apply user_update_tables in Hl. destruct Hl as (_ & Hs2 & Hq2 & _).
      apply (Hclosed _ (client_sessionId c)).
      * rewrite Hs2. now apply session_update_rows.
      * rewrite Hq2. now destruct (session_update_tables _ _ _ _ Hu) as (_ & _ & _ & ? & _).
Qed.

Lemma disconnect_clients socketId now st :
  connectedClients (fst (disconnect socketId now st))
  = match map_get socketId (connectedClients st) with
    | Some _ => map_delete socketId (connectedClients st)
    | None => connectedClients st
    end.
Proof. unfold disconnect. now destruct (map_get socketId (connectedClients st)). Qed.

Lemma same_id_same_row (l : list Session) a b :
  NoDup (map session_id l) -> In a l -> In b l -> session_id a = session_id b -> a = b.
Proof.
  induction l as [|x r IH]; simpl; [tauto|].
  intros Hnd Ha Hb E. inversion Hnd as [|? ? Hnotin Hr]; subst.
  destruct Ha as [->|Ha], Hb as [->|Hb]; auto.
  - exfalso. apply Hnotin. rewrite E. now apply in_map.
  - exfalso. apply Hnotin. rewrite <- E. now apply in_map.
Qed.

Lemma handle_clients_tracked e st :
  sessions_numbered (db st) -> clients_tracked st ->
  clients_tracked (fst (handle e st)).
Proof.
  intros (Hnd & _ & _) Hinv. unfold clients_tracked. destruct e; simpl.
  - destruct (SessionStartSchema payload) as [[userId nickname]|] eqn:Hv.
    + destruct (session_start_effect socketId payload now st _ _ Hv)
        as (x & -> & [(s & Hin & Hid & Hu & Ho & Hs & _)|(Hx & Hs & _)]);
        rewrite Hs; intros k v Hkv; apply map_set_In in Hkv.
      * destruct Hkv as [[-> ->]|Hold]; [exists s; auto|now apply (Hinv k)].
      * destruct Hkv as [[-> ->]|Hold].
        -- eexists. split; [apply in_or_app; right; left; reflexivity|]. auto.
        -- destruct (Hinv k v Hold) as (s & Hin & Hrest).
           exists s. split; [apply in_or_app; now left|exact Hrest].
    + rewrite session_start_rejects by assumption. exact Hinv.
  - destruct (message_send_tables socketId payload now messageId response st)
      as (Hs & _ & _ & _ & Hc). simpl in Hs, Hc. rewrite Hs, Hc. exact Hinv.
  - rewrite disconnect_clients. intros k v Hkv.
    assert (Hold : In (k, v) (connectedClients st)).
    { destruct (map_get socketId (connectedClients st)); auto.
      now apply map_delete_In in Hkv. }
    destruct (Hinv k v Hold) as (s & Hin & Hid & Hu & Ho).
    assert (Hclosed : forall c d1,
              map_get socketId (connectedClients st) = Some c ->
              remainingConnections (client_userId c)
                (map_delete socketId (connectedClients st)) = 0 ->
              sessions d1 = map (close_row (client_sessionId c) now) (sessions (db st)) ->
              exists s', In s' (sessions d1) /\ session_id s' = client_sessionId v
                         /\ session_userId s' = client_userId v
                         /\ session_endedAt s' = None).
    { intros c d1 Hc Hr Hs. rewrite Hc in Hkv. exists s. rewrite Hs.
      split; [|auto]. apply in_map_iff. exists s. split; [|exact Hin].
      apply close_row_other. intros E.
      destruct (Hinv socketId c (map_get_In _ _ _ Hc)) as (sc & Hinc & Hidc & Huc & _).
      assert (s = sc) by (apply (same_id_same_row (sessions (db st))); auto; congruence).
      subst sc. apply (remainingConnections_zero _ _ Hr).
      apply in_map_iff. exists v. split; [congruence|].
      unfold map_values. apply in_map_iff. exists (k, v). auto. }
    destruct (disconnect_db socketId now st) as [->|(c & d1 & Hc & Hr & Hu1 & [->|Hl])].
    + eauto 10.
    + apply (Hclosed c d1 Hc Hr). now apply session_update_rows.
    + apply (Hclosed c _ Hc Hr).
      apply user_update_tables in Hl. destruct Hl as (_ & -> & _).
      now apply session_update_rows.
  - intros k v [].
Qed.

Lemma serial_clients_tracked st :
  reachable st -> sessions_numbered (db st) /\ clients_tracked st.
Proof.
  intros [es <-].
  apply (run_invariant (fun s => sessions_numbered (db s) /\ clients_tracked s)).
  - intros e s [Hn Ht]. split.
    + now apply handle_sessions_numbered.
    + now apply handle_clients_tracked.
  - split.
    + split; [constructor|]. split; [simpl; lia|intros s []].
    + intros k v [].
Qed.

Lemma at_most_one (l : list Session) a b :
  (List.length l <= 1)%nat -> In a l -> In b l -> a = b.
Proof.
  destruct l as [|x [|y r]]; simpl; try tauto; [|lia].
  intros _ [<-|[]] [<-|[]]. reflexivity.
Qed.

Lemma filter_all_false {A} (p : A -> bool) (l : list A) :
  (forall x, In x l -> p x = false) -> filter p l = [].
Proof.
  induction l as [|a r IH]; simpl; intros H; auto.
  rewrite (H a) by auto. apply IH. intros; apply H; auto.
Qed.

(** The last connection of a user, in a serial run: its disconnect closes
    the user's open session at [now], after which the user has no open
    session, and stamps [lastSeenAt]; [durationSec] is left NULL. *)
Lemma disconnect_last_closes_open_session st socketId now clientData :
  reachable st ->
  map_get socketId (connectedClients st) = Some clientData ->
  remainingConnections (client_userId clientData)
    (map_delete socketId (connectedClients st)) = 0 ->
  let d' := db (fst (disconnect socketId now st)) in
  exists s,
    open_sessions (client_userId clientData) (db st) = [s]
    /\ session_id s = client_sessionId clientData
    /\ prisma.session_find (client_sessionId clientData) d'
       = Some (mkSession (session_id s) (client_userId clientData)
                         (session_startedAt s) (Some now) None)
    /\ open_sessions (client_userId clientData) d' = []
    /\ exists u, prisma.user_find (client_userId clientData) d' = Some u
                 /\ user_lastSeenAt u = Some now.
Proof.
  intros Hreach Hc Hr d'.
  destruct (serial_clients_tracked st Hreach) as [(Hnd & Hz & Hb) Htr].
  destruct (Htr socketId clientData (map_get_In _ _ _ Hc)) as (s & Hin & Hid & Hu & Ho).
  pose proof (session_find_unique s (db st) Hnd Hin) as Hfind. rewrite Hid in Hfind.
  assert (Hnz : client_sessionId clientData <> 0)
    by (specialize (Hb s Hin); lia).
  assert (Hknown : In (client_userId clientData) (user_ids (db st)))
    by (apply (reachable_clients_known st Hreach socketId), map_get_In, Hc).
  destruct (disconnect_last socketId now st clientData s Hc Hr Hfind Hnz Hknown)
    as (Hclosed & Hrows & Hseen).
  fold d' in Hclosed, Hrows, Hseen.
  assert (Hopen : In s (open_sessions (client_userId clientData) (db st))).
  { apply filter_In. split; auto. rewrite Hu, String.eqb_refl.
    unfold prisma.is_open. now rewrite Ho. }
  pose proof (serial_one_open_session st Hreach (client_userId clientData)) as Hone.
  exists s. split; [|split; [exact Hid|split; [|split; [|exact Hseen]]]].
  - destruct (open_sessions (client_userId clientData) (db st)) as [|x [|y r]];
      simpl in *; [tauto| |lia]. destruct Hopen as [->|[]]. reflexivity.
  - rewrite Hclosed, Hu. now rewrite (durationSec_never_set st Hreach s Hin).
  - unfold open_sessions. rewrite Hrows. apply filter_all_false.
    intros y Hy. apply in_map_iff in Hy. destruct Hy as (z & <- & Hz').
    unfold close_row. destruct (Z.eqb_spec (session_id z) (client_sessionId clientData))
      as [E|E]; simpl.
    + apply andb_false_r.
    + destruct (String.eqb (session_userId z) (client_userId clientData)
                && prisma.is_open z) eqn:Hp; auto.
      exfalso. apply E.
      assert (Hzo : In z (open_sessions (client_userId clientData) (db st)))
        by (apply filter_In; auto).
      rewrite (at_most_one _ z s Hone Hzo Hopen). exact Hid.
Qed.

(** * Further properties of the code *)

(** ** Trimming *)

Lemma trimStart_idem l : Js.trimStart_list (Js.trimStart_list l) = Js.trimStart_list l.
Proof.
  induction l as [|c r IH]; simpl; auto.
  destruct (Js.is_space c) eqn:E; auto. simpl. now rewrite E.
Qed.

Lemma trimStart_length l :
  (List.length (Js.trimStart_list l) <= List.length l)%nat.
Proof.
  induction l as [|c r IH]; simpl; auto.
  destruct (Js.is_space c); simpl; lia.
Qed.

Lemma trimStart_keeps_last x c :
  Js.is_space c = false -> exists w, Js.trimStart_list (x ++ [c]) = w ++ [c].
Proof.
  intros Hc. induction x as [|a r IH]; simpl.
  - rewrite Hc. now exists [].
  - destruct (Js.is_space a); [exact IH|]. now exists (a :: r).
Qed.

Lemma trim_list_ends l :
  Js.trimStart_list (Js.trim_list l) = Js.trim_list l
  /\ Js.trimStart_list (rev (Js.trim_list l)) = rev (Js.trim_list l).
Proof.
  unfold Js.trim_list. rewrite rev_involutive. split; [|apply trimStart_idem].
  destruct (Js.trimStart_list l) as [|c r] eqn:Et; [reflexivity|].
  assert (Hc : Js.is_space c = false).
  { destruct l as [|a l']; [discriminate|].
    revert Et. clear. revert c r.
    induction (a :: l') as [|x y IH]; simpl; [discriminate|].
    intros c r. destruct (Js.is_space x) eqn:E; [apply IH|].
    intros H; inversion H; subst; exact E. }
  simpl rev. destruct (trimStart_keeps_last (rev r) c Hc) as [w ->].
  rewrite rev_unit. simpl. now rewrite Hc.
Qed.

Lemma trim_list_fixed l :
  Js.trimStart_list l = l -> Js.trimStart_list (rev l) = rev l -> Js.trim_list l = l.
Proof.
  intros H1 H2. unfold Js.trim_list. rewrite H1, H2. apply rev_involutive.
Qed.

Lemma trim_list_length l : (List.length (Js.trim_list l) <= List.length l)%nat.
Proof.
  unfold Js.trim_list. rewrite length_rev.
  etransitivity; [apply trimStart_length|]. rewrite length_rev. apply trimStart_length.
Qed.

Lemma string_of_list_length l :
  String.length (string_of_list_ascii l) = List.length l.
Proof. induction l; simpl; auto. Qed.

Lemma list_of_string_length s :
  List.length (list_ascii_of_string s) = String.length s.
Proof. induction s; simpl; auto. Qed.

Lemma trim_idempotent s : Js.trim (Js.trim s) = Js.trim s.
Proof.
  unfold Js.trim. rewrite list_ascii_of_string_of_list_ascii.
  destruct (trim_list_ends (list_ascii_of_string s)) as [H1 H2].
  now rewrite trim_list_fixed.
Qed.

Lemma trim_length s : Js.length (Js.trim s) <= Js.length s.
Proof.
  unfold Js.length, Js.trim. rewrite string_of_list_length.
  pose proof (trim_list_length (list_ascii_of_string s)) as H.
  rewrite list_of_string_length in H. lia.
Qed.

Lemma truthy_length s : JsCase.truthy s = true <-> 1 <= Js.length s.
Proof.
  unfold Js.length. destruct s; simpl; split; intros; try discriminate; try lia; auto.
Qed.

(** X1. The two schemas accept exactly the payloads that are objects with
    a [userId] string in the uuid layout and, for [session:start], a
    [nickname] string of 1 to 20 characters as sent, for [message:send], a
    [text] string of at least one character as sent; what they hand on is
    the trimmed nickname or text. *)
Theorem schemas_accept_exactly :
  (forall payload userId nickname,
     SessionStartSchema payload = Some (userId, nickname)
     <-> exists fields raw,
           payload = JObj fields
           /\ fields_get "userId" fields = Some (JStr userId)
           /\ Zod.is_uuid userId = true
           /\ fields_get "nickname" fields = Some (JStr raw)
           /\ 1 <= Js.length raw <= 20
           /\ nickname = Js.trim raw) /\
  (forall payload userId text,
     MessageSendSchema payload = Some (userId, text)
     <-> exists fields raw,
           payload = JObj fields
           /\ fields_get "userId" fields = Some (JStr userId)
           /\ Zod.is_uuid userId = true
           /\ fields_get "text" fields = Some (JStr raw)
           /\ 1 <= Js.length raw
           /\ text = Js.trim raw).
Proof.
  split; [exact SessionStartSchema_accepts|exact MessageSendSchema_accepts].
Qed.

(** X2. What the nickname form of the client sends is always accepted by
    the server as it is: for an input of at most 20 characters (the
    [maxLength] of the field) and a stored user id in the uuid layout, the
    form submits nothing when the input is blank, and otherwise the
    [session:start] payload passes [SessionStartSchema] with the very
    nickname submitted, which is the trimmed input and is not empty. *)
Theorem nickname_form_passes_schema userId input :
  Zod.is_uuid userId = true ->
  Js.length input <= 20 ->
  match Client.NicknameModal_handleSubmit input with
  | None => Js.trim input = ""
  | Some nickname =>
      nickname = Js.trim input /\ 1 <= Js.length nickname <= 20
      /\ SessionStartSchema (Client.handleJoin userId nickname) = Some (userId, nickname)
  end.
Proof.
  intros Hu Hlen. unfold Client.NicknameModal_handleSubmit.
  destruct (JsCase.truthy (Js.trim input)) eqn:Ht.
  - apply truthy_length in Ht. pose proof (trim_length input) as Hl.
    split; [reflexivity|]. split; [lia|].
    apply SessionStartSchema_accepts.
    exists [("userId", JStr userId); ("nickname", JStr (Js.trim input))], (Js.trim input).
    repeat split; auto; try lia. symmetry. apply trim_idempotent.
  - destruct (Js.trim input); [reflexivity|discriminate].
Qed.

Lemma nickname_form_passes_schema_witness :
  match Client.NicknameModal_handleSubmit "  Ann " with
  | None => Js.trim "  Ann " = ""
  | Some nickname =>
      nickname = Js.trim "  Ann " /\ 1 <= Js.length nickname <= 20
      /\ SessionStartSchema (Client.handleJoin sample_userId nickname)
         = Some (sample_userId, nickname)
  end.
Proof.
  apply (nickname_form_passes_schema sample_userId "  Ann ");
    [vm_compute; reflexivity|vm_compute; discriminate].
Defined.

(** X3. What the two message forms of the client send is always accepted
    by the server as it is: for a stored user id in the uuid layout, the
    chat form and the visual-novel form send nothing when the input is
    blank, and otherwise they send the same [message:send] payload, which
    passes [MessageSendSchema] with the trimmed input as text, not empty. *)
Theorem message_forms_pass_schema userId input :
  Zod.is_uuid userId = true ->
  Client.VNChatView_handleSend userId input = Client.handleSendMessage userId input
  /\ match Client.handleSendMessage userId input with
     | None => Js.trim input = ""
     | Some payload =>
         MessageSendSchema payload = Some (userId, Js.trim input)
         /\ 1 <= Js.length (Js.trim input)
     end.
Proof.
  intros Hu. split; [reflexivity|]. unfold Client.handleSendMessage.
  destruct (JsCase.truthy (Js.trim input)) eqn:Ht; cbn [negb].
  - apply truthy_length in Ht. split; [|exact Ht].
    apply MessageSendSchema_accepts.
    exists [("userId", JStr userId); ("text", JStr (Js.trim input))], (Js.trim input).
    repeat split; auto. symmetry. apply trim_idempotent.
  - destruct (Js.trim input); [reflexivity|discriminate].
Qed.

Lemma message_forms_pass_schema_witness :
  Client.VNChatView_handleSend sample_userId " hi "
  = Client.handleSendMessage sample_userId " hi "
  /\ match Client.handleSendMessage sample_userId " hi " with
     | None => Js.trim " hi " = ""
     | Some payload =>
         MessageSendSchema payload = Some (sample_userId, Js.trim " hi ")
         /\ 1 <= Js.length (Js.trim " hi ")
     end.
Proof.
  apply (message_forms_pass_schema sample_userId " hi "). vm_compute. reflexivity.
Defined.

(** ** The tables in serial runs *)

Lemma schema_nickname_ok payload userId nickname :
  SessionStartSchema payload = Some (userId, nickname) ->
  Zod.is_uuid userId = true /\ nickname_ok nickname.
Proof.
  intros H. apply SessionStartSchema_accepts in H.
  destruct H as (fields & raw & _ & _ & Hu & _ & [_ Hhi] & ->).
  split; [exact Hu|]. split; [|apply trim_idempotent].
  pose proof (trim_length raw). lia.
Qed.

Lemma schema_text_trimmed payload userId text :
  MessageSendSchema payload = Some (userId, text) -> Js.trim text = text.
Proof.
  intros H. apply MessageSendSchema_accepts in H.
  destruct H as (fields & raw & _ & _ & _ & _ & _ & ->). apply trim_idempotent.
Qed.

Lemma user_upsert_ok id nickname now d :
  Zod.is_uuid id = true -> nickname_ok nickname -> users_ok (users d) ->
  users_ok (users (prisma.user_upsert id nickname (getAssignment id) now d)).
Proof.
  intros Hid Hn [Hnd Hall]. unfold prisma.user_upsert.
  destruct (prisma.user_find id d) as [found|] eqn:Hf; simpl; split.
  - rewrite touch_keeps_ids by (intros u0; now destruct (String.eqb _ _)). exact Hnd.
  - intros u Hin. apply in_map_iff in Hin. destruct Hin as (x & <- & Hx).
    pose proof (Hall x Hx) as Hx'. unfold user_ok, nickname_ok in *.
    destruct (String.eqb (user_id x) id); simpl; intuition discriminate.
  - rewrite map_app. simpl. apply NoDup_app; auto.
    + constructor; [intros []|constructor].
    + intros i Hi [<-|[]]. apply (proj2 (user_find_ids id d)) in Hi. congruence.
  - intros u. rewrite in_app_iff. simpl. intros [Hin|[<-|[]]]; [now apply Hall|].
    unfold user_ok, nickname_ok in *. simpl. intuition discriminate.
Qed.

Lemma user_update_ok id now d d' :
  prisma.user_update_lastSeenAt id now d = Some d' ->
  users_ok (users d) -> users_ok (users d').
Proof.
  unfold prisma.user_update_lastSeenAt.
  destruct (prisma.user_find id d) as [found|]; [|discriminate].
  intros H [Hnd Hall]; inversion H; subst; clear H. simpl. split.
  - rewrite touch_keeps_ids by (intros u0; now destruct (String.eqb _ _)). exact Hnd.
  - intros u Hin. apply in_map_iff in Hin. destruct Hin as (x & <- & Hx).
    pose proof (Hall x Hx) as Hx'. unfold user_ok, nickname_ok in *.
    destruct (String.eqb (user_id x) id); simpl; intuition discriminate.
Qed.

Lemma session_start_users_table socketId payload now st userId nickname :
  SessionStartSchema payload = Some (userId, nickname) ->
  users (db (fst (session_start socketId payload now st)))
  = users (prisma.user_upsert userId nickname (getAssignment userId) now (db st))
  /\ messages (db (fst (session_start socketId payload now st))) = messages (db st).
Proof.
  intros Hv. unfold session_start. rewrite Hv.
  pose proof (user_upsert_tables userId nickname (getAssignment userId) now (db st))
    as (_ & _ & Hm & _).
  destruct (prisma.session_findFirst_open userId _); simpl; auto.
Qed.

Lemma message_find_ids id d : prisma.message_find id d = None <-> ~ In id (message_ids d).
Proof.
  unfold prisma.message_find, message_ids. induction (messages d) as [|m r IH]; simpl.
  - tauto.
  - destruct (String.eqb_spec (message_id m) id) as [E|E].
    + split; [discriminate|]. intros H. exfalso. auto.
    + rewrite IH. tauto.
Qed.

(** What one [message:send] does to the tables. *)
Lemma message_send_effect socketId payload now messageId response st :
  let st' := fst (message_send socketId payload now messageId response st) in
  (db st' = db st
   \/ exists clientData text m d1,
        admitted socketId payload now st = Some (clientData, text)
        /\ prisma.message_find messageId (db st) = None
        /\ In (client_userId clientData) (user_ids (db st))
        /\ m = mkMessage messageId (client_userId clientData)
                 (client_nickname clientData) text now (fst (infer response))
                 (message_intensity m) None None
        /\ messages d1 = messages (db st) ++ [m]
        /\ users d1 = users (db st)
        /\ (db st' = d1
            \/ prisma.user_update_lastSeenAt (client_userId clientData) now d1
               = Some (db st')))
  /\ (rateLimits st' = rateLimits st
      \/ exists clientData text,
           admitted socketId payload now st = Some (clientData, text)
           /\ rateLimits st'
              = counted (client_userId clientData) now (rateLimits st)).
Proof.
  destruct (admitted socketId payload now st) as [[cd text]|] eqn:Hadm.
  - rewrite (message_send_admitted _ _ _ messageId response _ _ _ Hadm). cbv zeta.
    destruct (prisma.message_create _ _ _ _ _ _ _ _) as [[d1 m]|] eqn:Hc.
    + assert (Hpre : prisma.message_find messageId (db st) = None
                     /\ In (client_userId cd) (user_ids (db st))).
      { revert Hc. unfold prisma.message_create.
        destruct (prisma.message_find messageId (db st)); [discriminate|].
        destruct (prisma.user_find (client_userId cd) (db st)) eqn:Hu; [|discriminate].
        intros _. split; auto. apply user_find_ids. congruence. }
      destruct Hpre as [Hfresh Hknown].
      destruct (message_create_tables _ _ _ _ _ _ _ _ _ _ Hc)
        as (q & _ & Hm & Hms & Hus & _).
      destruct (prisma.user_update_lastSeenAt _ _ d1) as [d2|] eqn:Hl; simpl.
      * split; [right|right; exists cd, text; auto].
        exists cd, text, m, d1. subst m. simpl. auto 10.
      * split; [right|right; exists cd, text; auto].
        exists cd, text, m, d1. subst m. simpl. auto 10.
    + simpl. split; [now left|right; exists cd, text; auto].
  - rewrite (message_send_not_admitted _ _ _ _ _ _ Hadm). auto.
Qed.

Lemma handle_users_ok e st :
  users_ok (users (db st)) -> users_ok (users (db (fst (handle e st)))).
Proof.
  intros Hok. destruct e; simpl; auto.
  - destruct (SessionStartSchema payload) as [[userId nickname]|] eqn:Hv.
    + rewrite (proj1 (session_start_users_table socketId payload now st _ _ Hv)).
      destruct (schema_nickname_ok _ _ _ Hv). now apply user_upsert_ok.
    + now rewrite session_start_rejects.
  - destruct (message_send_effect socketId payload now messageId response st)
      as [[->|(cd & text & m & d1 & _ & _ & _ & _ & _ & Hus & [->|Hl])] _]; auto.
    + now rewrite Hus.
    + apply (user_update_ok _ _ _ _ Hl). now rewrite Hus.
  - destruct (disconnect_db socketId now st) as [->|(c & d1 & _ & _ & Hu & [->|Hl])]; auto.
    + now rewrite (proj1 (session_update_tables _ _ _ _ Hu)).
    + apply (user_update_ok _ _ _ _ Hl).
      now rewrite (proj1 (session_update_tables _ _ _ _ Hu)).
Qed.

(** X4. In every state the server reaches, the User table holds one row
    per user id, every id is in the uuid layout, every nickname has at
    most 20 characters and nothing to trim, [lastSeenAt] is set, and the
    stored assignment is the one [getAssignment] computes from the id: it
    is assigned at creation and no later join changes it. *)
Theorem users_table_invariant st :
  reachable st ->
  NoDup (user_ids (db st))
  /\ forall u, In u (users (db st)) ->
       Zod.is_uuid (user_id u) = true
       /\ Js.length (user_nickname u) <= 20
       /\ Js.trim (user_nickname u) = user_nickname u
       /\ user_assignment u = getAssignment (user_id u)
       /\ user_lastSeenAt u <> None.
Proof.
  intros [es <-].
  assert (H : users_ok (users (db (fst (run es init))))).
  { apply (run_invariant (fun s => users_ok (users (db s)))).
    - apply handle_users_ok.
    - split; [constructor|intros u []]. }
  destruct H as [Hnd Hall]. split; [exact Hnd|].
  intros u Hin. destruct (Hall u Hin) as (H1 & [H2 H3] & H4 & H5). auto.
Qed.

Lemma users_table_invariant_witness :
  NoDup (user_ids (db joined_state))
  /\ forall u, In u (users (db joined_state)) ->
       Zod.is_uuid (user_id u) = true
       /\ Js.length (user_nickname u) <= 20
       /\ Js.trim (user_nickname u) = user_nickname u
       /\ user_assignment u = getAssignment (user_id u)
       /\ user_lastSeenAt u <> None.
Proof. exact (users_table_invariant joined_state joined_state_reachable). Defined.

Lemma admitted_inv socketId payload now st clientData text :
  admitted socketId payload now st = Some (clientData, text) ->
  map_get socketId (connectedClients st) = Some clientData
  /\ MessageSendSchema payload = Some (client_userId clientData, text)
  /\ count (current_window (client_userId clientData) now (rateLimits st))
     < RATE_LIMIT_MAX_MESSAGES.
Proof.
  unfold admitted.
  destruct (map_get socketId (connectedClients st)) as [cd|]; [|discriminate].
  destruct (MessageSendSchema payload) as [[u t]|]; [|discriminate].
  destruct (String.eqb_spec u (client_userId cd)) as [->|]; [|discriminate].
  simpl. destruct (Z.ltb_spec (count (current_window (client_userId cd) now (rateLimits st)))
                     RATE_LIMIT_MAX_MESSAGES) as [Hlt|Hge]; [|discriminate].
  intros H; inversion H; subst. auto.
Qed.

Lemma handle_user_ids_incl e st i :
  In i (user_ids (db st)) -> In i (user_ids (db (fst (handle e st)))).
Proof.
  intros Hin. destruct e; simpl; auto.
  - destruct (SessionStartSchema payload) as [[userId nickname]|] eqn:Hv.
    + apply (proj1 (session_start_users socketId payload now st _ _ Hv)). auto.
    + now rewrite session_start_rejects.
  - now rewrite (proj1 (proj2 (proj2 (proj2
          (message_send_tables socketId payload now messageId response st))))).
  - destruct (disconnect_db socketId now st) as [->|(c & d1 & _ & _ & Hu & [->|Hl])]; auto.
    + unfold user_ids. now rewrite (proj1 (session_update_tables _ _ _ _ Hu)).
    + apply user_update_tables in Hl. destruct Hl as (-> & _).
      unfold user_ids. now rewrite (proj1 (session_update_tables _ _ _ _ Hu)).
Qed.

(** What one event does to the Message table: nothing, or one row more at
    its end. *)
Lemma handle_messages e st :
  messages (db (fst (handle e st))) = messages (db st)
  \/ exists m,
       messages (db (fst (handle e st))) = messages (db st) ++ [m]
       /\ ~ In (message_id m) (message_ids (db st))
       /\ In (message_userId m) (user_ids (db st))
       /\ Js.trim (message_text m) = message_text m
       /\ message_seed m = None /\ message_moodUpdatedAt m = None.
Proof.
  destruct e; simpl; auto.
  - destruct (SessionStartSchema payload) as [[userId nickname]|] eqn:Hv.
    + left. apply (session_start_users_table socketId payload now st _ _ Hv).
    + left. now rewrite session_start_rejects.
  - destruct (message_send_effect socketId payload now messageId response st)
      as [[->|(cd & text & m & d1 & Hadm & Hfresh & Hknown & Hm & Hms & _ & Hdb)] _]; auto.
    right. exists m.
    destruct (admitted_inv _ _ _ _ _ _ Hadm) as (_ & Hv & _).
    assert (Hrows : messages (db (fst (message_send socketId payload now messageId
                                         response st))) = messages (db st) ++ [m]).
    { destruct Hdb as [->|Hl]; auto.
      apply user_update_tables in Hl. destruct Hl as (_ & _ & _ & -> & _). exact Hms. }
    split; [exact Hrows|]. rewrite Hm. simpl.
    split; [now apply message_find_ids|]. split; [exact Hknown|].
    split; [exact (schema_text_trimmed _ _ _ Hv)|auto].
  - left.
    destruct (disconnect_db socketId now st) as [->|(c & d1 & _ & _ & Hu & [->|Hl])]; auto.
    + now destruct (session_update_tables _ _ _ _ Hu) as (_ & ? & _).
    + apply user_update_tables in Hl. destruct Hl as (_ & _ & _ & -> & _).
      now destruct (session_update_tables _ _ _ _ Hu) as (_ & ? & _).
Qed.

Lemma handle_messages_ok e st :
  messages_ok (db st) -> messages_ok (db (fst (handle e st))).
Proof.
  intros [Hnd Hall]. unfold messages_ok, message_ids.
  destruct (handle_messages e st) as [->|(m & -> & Hfresh & Hknown & Hrest)].
  - split; [exact Hnd|]. intros m Hin. destruct (Hall m Hin) as (Hu & Hr).
    split; [now apply handle_user_ids_incl|exact Hr].
  - split.
    + rewrite map_app. simpl. apply NoDup_app; auto.
      * constructor; [intros []|constructor].
      * intros i Hi [<-|[]]. exact (Hfresh Hi).
    + intros x. rewrite in_app_iff. simpl. intros [Hin|[<-|[]]].
      * destruct (Hall x Hin) as (Hu & Hr).
        split; [now apply handle_user_ids_incl|exact Hr].
      * split; [now apply handle_user_ids_incl|exact Hrest].
Qed.

(** X5. In every state the server reaches, the Message table holds one
    row per message id, the sender of every message has a row in User,
    every stored text has nothing to trim, and [seed] and [moodUpdatedAt]
    are never set. *)
Theorem messages_table_invariant st :
  reachable st ->
  NoDup (message_ids (db st))
  /\ forall m, In m (messages (db st)) ->
       In (message_userId m) (user_ids (db st))
       /\ Js.trim (message_text m) = message_text m
       /\ message_seed m = None /\ message_moodUpdatedAt m = None.
Proof.
  intros [es <-]. apply (run_invariant (fun s => messages_ok (db s))).
  - apply handle_messages_ok.
  - split; [constructor|intros m []].
Qed.

Lemma messages_table_invariant_witness :
  NoDup (message_ids (db after_flood))
  /\ forall m, In m (messages (db after_flood)) ->
       In (message_userId m) (user_ids (db after_flood))
       /\ Js.trim (message_text m) = message_text m
       /\ message_seed m = None /\ message_moodUpdatedAt m = None.
Proof.
  apply (messages_table_invariant after_flood).
  exists (ev_session_start "socketA" join_payload 1000
          :: map (send_event "socketA" hello) (mkSend 1500 "m1" fetch_rejects :: flood)).
  vm_compute. reflexivity.
Defined.

(** X6. The Message table is append-only: whatever events the server
    handles, the rows it had stay as they were, in place, and at most one
    row per event is added after them; no stored mood, intensity or text
    is ever rewritten. *)
Theorem messages_append_only es st :
  exists added,
    messages (db (fst (run es st))) = messages (db st) ++ added
    /\ (List.length added <= List.length es)%nat.
Proof.
  revert st. induction es as [|e r IH]; intros st; simpl.
  - exists []. rewrite app_nil_r. auto.
  - destruct (handle e st) as [st1 out1] eqn:He.
    destruct (IH st1) as (l & Hl & Hlen).
    destruct (run r st1) as [st2 out2]. simpl in *.
    pose proof (handle_messages e st) as Hm. rewrite He in Hm. simpl in Hm.
    destruct Hm as [Hm|(m & Hm & _)]; rewrite Hl, Hm.
    + exists l. split; auto.
    + exists (m :: l). rewrite <- app_assoc. simpl. split; auto. lia.
Qed.

(** ** The rate limiter in serial runs *)

Lemma current_window_count userId now limits :
  limits_ok limits -> 0 <= count (current_window userId now limits).
Proof.
  intros Hok. unfold current_window.
  destruct (map_get userId limits) as [l|] eqn:Hg; simpl; [|lia].
  destruct (_ >? _); simpl; [lia|].
  specialize (Hok userId l (map_get_In _ _ _ Hg)). lia.
Qed.

Lemma handle_limits_ok e st :
  limits_ok (rateLimits st) -> limits_ok (rateLimits (fst (handle e st))).
Proof.
  intros Hok. destruct e; simpl; auto.
  - unfold session_start. repeat break_match; simpl; auto.
  - destruct (message_send_effect socketId payload now messageId response st)
      as [_ [->|(cd & text & Hadm & ->)]]; auto.
    destruct (admitted_inv _ _ _ _ _ _ Hadm) as (_ & _ & Hlt).
    pose proof (current_window_count (client_userId cd) now _ Hok) as Hge.
    unfold counted. intros k v Hin. apply map_set_In in Hin.
    destruct Hin as [[-> ->]|Hin]; [simpl; lia|eauto].
  - unfold disconnect. repeat break_match; simpl; auto.
  - intros k v [].
Qed.

(** X7. In every state the server reaches, every counter of the rate
    limiter is between 1 and 5: never more than five sends of one user
    are let through on one window. *)
Theorem rate_limit_counters_bounded st userId limitData :
  reachable st ->
  limit_of userId st = Some limitData ->
  1 <= count limitData <= RATE_LIMIT_MAX_MESSAGES.
Proof.
  intros [es <-] Hg.
  assert (H : limits_ok (rateLimits (fst (run es init)))).
  { apply (run_invariant (fun s => limits_ok (rateLimits s))).
    - apply handle_limits_ok.
    - intros k v []. }
  exact (H userId limitData (map_get_In _ _ _ Hg)).
Qed.

Lemma rate_limit_counters_bounded_witness :
  1 <= count (mkLimitData 5 1500) <= RATE_LIMIT_MAX_MESSAGES.
Proof.
  apply (rate_limit_counters_bounded after_flood sample_userId (mkLimitData 5 1500)).
  - exists (ev_session_start "socketA" join_payload 1000
            :: map (send_event "socketA" hello) (mkSend 1500 "m1" fetch_rejects :: flood)).
    vm_compute. reflexivity.
  - vm_compute. reflexivity.
Defined.

(** X8. The limiter counts per user, not per socket and not globally: a
    [message:send] on a socket changes no counter but that of the socket's
    own user; when the send is admitted that counter becomes the count of
    the current window plus one, with the start of that window. *)
Theorem rate_limit_keyed_by_user
    socketId payload now messageId response st clientData :
  map_get socketId (connectedClients st) = Some clientData ->
  let st' := fst (message_send socketId payload now messageId response st) in
  (forall other, other <> client_userId clientData ->
     limit_of other st' = limit_of other st)
  /\ (forall text,
        admitted socketId payload now st = Some (clientData, text) ->
        let w := current_window (client_userId clientData) now (rateLimits st) in
        limit_of (client_userId clientData) st'
        = Some (mkLimitData (count w + 1) (startTime w))).
Proof.
  intros Hc st'. unfold limit_of.
  destruct (message_send_effect socketId payload now messageId response st)
    as [_ Hl]. fold st' in Hl. split.
  - intros other Hne. destruct Hl as [->|(cd & text & Hadm & ->)]; auto.
    destruct (admitted_inv _ _ _ _ _ _ Hadm) as (Hc' & _).
    assert (cd = clientData) by congruence. subst cd.
    unfold counted. apply map_get_set_other. congruence.
  - intros text Hadm. cbv zeta. subst st'.
    rewrite (message_send_admitted _ _ _ messageId response _ _ _ Hadm). cbv zeta.
    repeat break_match; simpl; unfold counted; apply map_get_set_same.
Qed.

Lemma rate_limit_keyed_by_user_witness :
  let st' := fst (message_send "socketA" hello 1500 "m1" fetch_rejects joined_state) in
  (forall other, other <> sample_userId -> limit_of other st' = limit_of other joined_state)
  /\ (forall text,
        admitted "socketA" hello 1500 joined_state
        = Some (mkClientData sample_userId "Verifier" CONTROL 1, text) ->
        let w := current_window sample_userId 1500 (rateLimits joined_state) in
        limit_of sample_userId st' = Some (mkLimitData (count w + 1) (startTime w))).
Proof.
  apply (rate_limit_keyed_by_user "socketA" hello 1500 "m1" fetch_rejects joined_state
           (mkClientData sample_userId "Verifier" CONTROL 1)).
  vm_compute. reflexivity.
Defined.

(** X9. A [message:send] that is not admitted (socket not joined, payload
    refused by the schema, user id of the payload not the socket's, or
    limit reached) leaves the whole state as it was, and answers with at
    most one event, sent to that socket alone: [error:invalid_payload] or
    [error:rate_limited]; a socket that has not joined gets no answer. *)
Theorem rejected_send_changes_nothing socketId payload now messageId response st :
  admitted socketId payload now st = None ->
  let '(st', out) := message_send socketId payload now messageId response st in
  st' = st
  /\ (List.length out <= 1)%nat
  /\ (forall x, In x out ->
        exists event body,
          x = socket_emit socketId event body
          /\ (event = "error:invalid_payload" \/ event = "error:rate_limited"))
  /\ (map_get socketId (connectedClients st) = None -> out = []).
Proof.
  unfold admitted, message_send.
  destruct (map_get socketId (connectedClients st)) as [cd|].
  2:{ intros _. repeat split; auto. intros x []. }
  destruct (MessageSendSchema payload) as [[u t]|].
  2:{ intros _. repeat split; auto; [|discriminate].
      intros x [<-|[]]. eauto. }
  destruct (String.eqb u (client_userId cd)); simpl.
  2:{ intros _. repeat split; auto; [|discriminate].
      intros x [<-|[]]. eauto. }
  rewrite geb_ltb. destruct (_ <? _); simpl; [discriminate|].
  intros _. repeat split; auto; [|discriminate].
  intros x [<-|[]]. eauto.
Qed.

Lemma rejected_send_changes_nothing_witness :
  let '(st', out) := message_send "socketB" hello 1500 "m1" fetch_rejects joined_state in
  st' = joined_state
  /\ (List.length out <= 1)%nat
  /\ (forall x, In x out ->
        exists event body,
          x = socket_emit "socketB" event body
          /\ (event = "error:invalid_payload" \/ event = "error:rate_limited"))
  /\ (map_get "socketB" (connectedClients joined_state) = None -> out = []).
Proof.
  apply (rejected_send_changes_nothing "socketB" hello 1500 "m1" fetch_rejects joined_state).
  vm_compute. reflexivity.
Defined.

(** ** Sessions and presence in serial runs *)

Lemma reachable_handle e st : reachable st -> reachable (fst (handle e st)).
Proof. intros [es <-]. exists (es ++ [e]). apply run_snoc. Qed.

(** X10. When every handler runs to its end before the next one starts,
    from an empty database and across restarts, no user ever has two open
    sessions. *)
Theorem one_open_session_in_serial_runs st userId :
  reachable st -> (List.length (open_sessions userId (db st)) <= 1)%nat.
Proof. intros H. exact (serial_one_open_session st H userId). Qed.

Lemma one_open_session_in_serial_runs_witness :
  (List.length (open_sessions sample_userId (db joined_state)) <= 1)%nat.
Proof.
  exact (one_open_session_in_serial_runs joined_state sample_userId joined_state_reachable).
Defined.

Lemma tracked_open_session st socketId clientData :
  reachable st ->
  map_get socketId (connectedClients st) = Some clientData ->
  exists s,
    open_sessions (client_userId clientData) (db st) = [s]
    /\ session_id s = client_sessionId clientData
    /\ In s (sessions (db st)).
Proof.
  intros Hreach Hc.
  destruct (serial_clients_tracked st Hreach) as [_ Htr].
  destruct (Htr socketId clientData (map_get_In _ _ _ Hc)) as (s & Hin & Hid & Hu & Ho).
  assert (Hopen : In s (open_sessions (client_userId clientData) (db st))).
  { apply filter_In. split; auto. rewrite Hu, String.eqb_refl.
    unfold prisma.is_open. now rewrite Ho. }
  pose proof (serial_one_open_session st Hreach (client_userId clientData)) as Hone.
  exists s. split; [|auto].
  destruct (open_sessions (client_userId clientData) (db st)) as [|x [|y r]];
    simpl in *; [tauto| |lia]. destruct Hopen as [->|[]]. reflexivity.
Qed.

(** X11. In serial runs every connected socket is bound to the one open
    session of its own user: the session id kept for the socket is the id
    of a Session row of that user with no end time, that row is the
    user's only open session, and the user has a row in User. *)
Theorem connected_socket_tracks_open_session st socketId clientData :
  reachable st ->
  map_get socketId (connectedClients st) = Some clientData ->
  exists s,
    prisma.session_find (client_sessionId clientData) (db st) = Some s
    /\ session_userId s = client_userId clientData
    /\ session_endedAt s = None
    /\ open_sessions (client_userId clientData) (db st) = [s]
    /\ In (client_userId clientData) (user_ids (db st)).
Proof.
  intros Hreach Hc.
  destruct (tracked_open_session st socketId clientData Hreach Hc) as (s & Hopen & Hid & Hin).
  destruct (serial_clients_tracked st Hreach) as [(Hnd & _) _].
  assert (Hs : In s (open_sessions (client_userId clientData) (db st)))
    by (rewrite Hopen; simpl; auto).
  apply filter_In in Hs. destruct Hs as [_ Hp]. apply andb_prop in Hp.
  destruct Hp as [Hu Ho]. apply String.eqb_eq in Hu. unfold prisma.is_open in Ho.
  exists s. rewrite <- Hid. split; [now apply session_find_unique|].
  split; [exact Hu|]. split; [now destruct (session_endedAt s)|].
  split; [exact Hopen|].
  apply (reachable_clients_known st Hreach socketId), map_get_In, Hc.
Qed.

Lemma connected_socket_tracks_open_session_witness :
  exists s,
    prisma.session_find 1 (db joined_state) = Some s
    /\ session_userId s = sample_userId
    /\ session_endedAt s = None
    /\ open_sessions sample_userId (db joined_state) = [s]
    /\ In sample_userId (user_ids (db joined_state)).
Proof.
  apply (connected_socket_tracks_open_session joined_state "socketA"
           (mkClientData sample_userId "Verifier" CONTROL 1)).
  - exact joined_state_reachable.
  - vm_compute. reflexivity.
Defined.

(** X12. In serial runs, the disconnect of a user's last connection
    closes that user's open session: the row gets [endedAt = now], the
    user is left with no open session and gets [lastSeenAt = now];
    [durationSec] is not written. *)
Theorem last_disconnect_closes_session st socketId now clientData :
  reachable st ->
  map_get socketId (connectedClients st) = Some clientData ->
  remainingConnections (client_userId clientData)
    (map_delete socketId (connectedClients st)) = 0 ->
  let d' := db (fst (disconnect socketId now st)) in
  exists s,
    open_sessions (client_userId clientData) (db st) = [s]
    /\ session_id s = client_sessionId clientData
    /\ prisma.session_find (client_sessionId clientData) d'
       = Some (mkSession (session_id s) (client_userId clientData)
                         (session_startedAt s) (Some now) None)
    /\ open_sessions (client_userId clientData) d' = []
    /\ exists u, prisma.user_find (client_userId clientData) d' = Some u
                 /\ user_lastSeenAt u = Some now.
Proof. exact (disconnect_last_closes_open_session st socketId now clientData). Qed.

Lemma last_disconnect_closes_session_witness :
  let d' := db (fst (disconnect "socketA" 9000 joined_state)) in
  exists s,
    open_sessions sample_userId (db joined_state) = [s]
    /\ session_id s = 1
    /\ prisma.session_find 1 d'
       = Some (mkSession (session_id s) sample_userId (session_startedAt s)
                         (Some 9000) None)
    /\ open_sessions sample_userId d' = []
    /\ exists u, prisma.user_find sample_userId d' = Some u
                 /\ user_lastSeenAt u = Some 9000.
Proof.
  apply (last_disconnect_closes_session joined_state "socketA" 9000
           (mkClientData sample_userId "Verifier" CONTROL 1)).
  - exact joined_state_reachable.
  - vm_compute. reflexivity.
  - vm_compute. reflexivity.
Defined.

Lemma online_entry clients userId :
  In userId (map client_userId (map_values clients)) ->
  exists o,
    filter (fun x => String.eqb (online_userId x) userId) (getOnlineUsers clients) = [o]
    /\ online_userId o = userId.
Proof.
  intros Hin.
  assert (Hk : In userId (map online_userId (getOnlineUsers clients)))
    by (rewrite getOnlineUsers_keys; apply collect_keys; auto).
  apply in_map_iff in Hk. destruct Hk as (o & Ho & Hino).
  exists o. split; [|exact Ho]. rewrite <- Ho. apply filter_unique_key; auto.
  rewrite getOnlineUsers_keys. apply collect_NoDup. constructor.
Qed.

Lemma remaining_nonzero userId clients socketId clientData :
  In (socketId, clientData) clients -> client_userId clientData = userId ->
  remainingConnections userId clients <> 0.
Proof.
  intros Hin Hu Hz. apply (remainingConnections_zero _ _ Hz).
  apply in_map_iff. exists clientData. split; auto.
  unfold map_values. apply in_map_iff. exists (socketId, clientData). auto.
Qed.

(** X13. A disconnect that is not the user's last one, and a disconnect
    of a socket that never joined, change nothing in the database: the
    session stays open.  In the first case the one event emitted is the
    [presence:update] broadcast, and the user is still in its list, once. *)
Theorem early_disconnect_keeps_session socketId now st :
  (map_get socketId (connectedClients st) = None ->
   disconnect socketId now st = (st, [])) /\
  (forall clientData,
     map_get socketId (connectedClients st) = Some clientData ->
     remainingConnections (client_userId clientData)
       (map_delete socketId (connectedClients st)) <> 0 ->
     exists st' users o,
       disconnect socketId now st
       = (st', [io_emit "presence:update"
                  (JObj [("onlineUsers", JArr (map OnlineUser_json users))])])
       /\ db st' = db st
       /\ connectedClients st' = map_delete socketId (connectedClients st)
       /\ filter (fun x => String.eqb (online_userId x) (client_userId clientData)) users
          = [o]).
Proof.
  split.
  - intros Hc. unfold disconnect. now rewrite Hc.
  - intros cd Hc Hr.
    assert (Hin : In (client_userId cd)
                     (map client_userId
                        (map_values (map_delete socketId (connectedClients st))))).
    { unfold remainingConnections in Hr.
      destruct (filter _ (map_values (map_delete socketId (connectedClients st))))
        as [|c r] eqn:E; [simpl in Hr; congruence|].
      assert (Hc' : In c (filter (fun client => String.eqb (client_userId client)
                                                  (client_userId cd))
                            (map_values (map_delete socketId (connectedClients st)))))
        by (rewrite E; simpl; auto).
      apply filter_In in Hc'. destruct Hc' as [Hc1 Hc2]. apply String.eqb_eq in Hc2.
      rewrite <- Hc2. now apply in_map. }
    destruct (online_entry _ _ Hin) as (o & Ho & _).
    pose proof (disconnect_not_last socketId now st cd Hc Hr) as Hdb.
    unfold disconnect in *. rewrite Hc in *. simpl in *.
    eexists. exists (getOnlineUsers (map_delete socketId (connectedClients st))), o.
    split; [reflexivity|]. simpl. auto.
Qed.

Lemma early_disconnect_keeps_session_witness :
  exists st' users o,
    disconnect "socketA" 3000
      (fst (run [ev_session_start "socketB" join_payload 2000] joined_state))
    = (st', [io_emit "presence:update"
               (JObj [("onlineUsers", JArr (map OnlineUser_json users))])])
    /\ db st' = db (fst (run [ev_session_start "socketB" join_payload 2000] joined_state))
    /\ connectedClients st'
       = map_delete "socketA"
           (connectedClients
              (fst (run [ev_session_start "socketB" join_payload 2000] joined_state)))
    /\ filter (fun x => String.eqb (online_userId x) sample_userId) users = [o].
Proof.
  apply (proj2 (early_disconnect_keeps_session "socketA" 3000
                  (fst (run [ev_session_start "socketB" join_payload 2000] joined_state)))
           (mkClientData sample_userId "Verifier" CONTROL 1)).
  - vm_compute. reflexivity.
  - vm_compute. discriminate.
Defined.

(** X14. A valid [session:start] is answered by exactly two events: a
    [session:ack] to the joining socket, carrying the user id, the
    trimmed nickname and the assignment computed from the id, and a
    [presence:update] to everyone; both carry the same list of online
    users, in which the joining user appears exactly once. *)
Theorem session_start_acknowledged socketId payload now st userId nickname :
  SessionStartSchema payload = Some (userId, nickname) ->
  exists st' ack users o,
    session_start socketId payload now st
    = (st', [socket_emit socketId "session:ack" ack;
             io_emit "presence:update"
               (JObj [("onlineUsers", JArr (map OnlineUser_json users))])])
    /\ obj_get "userId" ack = Some (JStr userId)
    /\ obj_get "nickname" ack = Some (JStr nickname)
    /\ obj_get "assignment" ack = Some (JStr (Assignment_str (getAssignment userId)))
    /\ obj_get "onlineUsers" ack = Some (JArr (map OnlineUser_json users))
    /\ users = getOnlineUsers (connectedClients st')
    /\ filter (fun x => String.eqb (online_userId x) userId) users = [o].
Proof.
  intros Hv.
  destruct (session_start_users socketId payload now st _ _ Hv) as (_ & x & Hcc).
  assert (Hin : In userId (map client_userId
                   (map_values (connectedClients
                      (fst (session_start socketId payload now st)))))).
  { rewrite Hcc. apply in_map_iff.
    exists (mkClientData userId nickname (getAssignment userId) x). split; auto.
    unfold map_values. apply in_map_iff.
    exists (socketId, mkClientData userId nickname (getAssignment userId) x).
    split; auto. apply map_get_In, map_get_set_same. }
  destruct (online_entry _ _ Hin) as (o & Ho & _).
  revert Ho. unfold session_start. rewrite Hv.
  destruct (prisma.session_findFirst_open userId _) as [s|]; simpl; intros Ho;
    (eexists; eexists; eexists; exists o; split; [reflexivity|]; simpl; auto 10).
Qed.

Lemma session_start_acknowledged_witness :
  exists st' ack users o,
    session_start "socketA" join_payload 1000 init
    = (st', [socket_emit "socketA" "session:ack" ack;
             io_emit "presence:update"
               (JObj [("onlineUsers", JArr (map OnlineUser_json users))])])
    /\ obj_get "userId" ack = Some (JStr sample_userId)
    /\ obj_get "nickname" ack = Some (JStr "Verifier")
    /\ obj_get "assignment" ack
       = Some (JStr (Assignment_str (getAssignment sample_userId)))
    /\ obj_get "onlineUsers" ack = Some (JArr (map OnlineUser_json users))
    /\ users = getOnlineUsers (connectedClients st')
    /\ filter (fun x => String.eqb (online_userId x) sample_userId) users = [o].
Proof.
  apply (session_start_acknowledged "socketA" join_payload 1000 init
           sample_userId "Verifier").
  vm_compute. reflexivity.
Defined.

(** ** The history replayed on join *)








(** ** Maps: keys that are new, keys that are removed *)

Section JsMapFresh.
Context {V : Type}.
Implicit Types (m r : JsMap V) (k : string) (v : V).

Lemma map_set_fresh k v m : map_get k m = None -> map_set k v m = m ++ [(k, v)].
Proof.
  induction m as [|[k0 v0] m' IH]; simpl; auto.
  destruct (String.eqb k k0); [discriminate|]. intros H. now rewrite IH.
Qed.

Lemma map_get_app k m r :
  map_get k (m ++ r) = match map_get k m with Some v => Some v | None => map_get k r end.
Proof.
  induction m as [|[k0 v0] m' IH]; simpl; auto. now destruct (String.eqb k k0).
Qed.

Lemma map_delete_fresh k v m r :
  map_get k m = None -> map_delete k (m ++ (k, v) :: r) = m ++ r.
Proof.
  induction m as [|[k0 v0] m' IH]; simpl.
  - now rewrite String.eqb_refl.
  - destruct (String.eqb k k0); [discriminate|]. intros H. now rewrite IH.
Qed.

Lemma map_get_absent k m : ~ In k (map_keys m) -> map_get k m = None.
Proof.
  unfold map_keys. induction m as [|[k0 v0] m' IH]; simpl; auto.
  intros H. destruct (String.eqb_spec k k0) as [->|Hk]; [tauto|]. apply IH. tauto.
Qed.

Lemma map_delete_keys k m k' :
  In k' (map_keys (map_delete k m)) -> In k' (map_keys m).
Proof.
  unfold map_keys. intros H. apply in_map_iff in H. destruct H as ([a b] & <- & Hin).
  apply in_map_iff. exists (a, b). split; auto. now apply map_delete_In in Hin.
Qed.

Lemma map_delete_NoDup k m :
  NoDup (map_keys m) -> NoDup (map_keys (map_delete k m)).
Proof.
  induction m as [|[k0 v0] m' IH]; simpl; intros Hnd; auto.
  inversion Hnd as [|? ? Hnotin Hr]; subst.
  destruct (String.eqb k k0); simpl; auto.
  constructor; auto. intros Hin. apply Hnotin. exact (map_delete_keys _ _ _ Hin).
Qed.

Lemma map_get_delete_same k m :
  NoDup (map_keys m) -> map_get k (map_delete k m) = None.
Proof.
  induction m as [|[k0 v0] m' IH]; simpl; intros Hnd; auto.
  inversion Hnd as [|? ? Hnotin Hr]; subst.
  destruct (String.eqb_spec k k0) as [->|Hk]; simpl.
  - now apply map_get_absent.
  - destruct (String.eqb_spec k k0); [congruence|auto].
Qed.
End JsMapFresh.

(** ** Presence: which connection is shown *)

Lemma collect_get l : forall acc u,
  map_get u (collect l acc)
  = match find (fun c => String.eqb (client_userId c) u) (rev l) with
    | Some c => Some (online_of c)
    | None => map_get u acc
    end.
Proof.
  induction l as [|c r IH] using rev_ind; intros acc u; [reflexivity|].
  unfold collect in *. rewrite fold_left_app, rev_app_distr. simpl.
  destruct (String.eqb_spec (client_userId c) u) as [<-|Hne].
  - apply map_get_set_same.
  - rewrite map_get_set_other by assumption. apply IH.
Qed.

(** X16. When a user is connected on several sockets, the list of online
    users shows the user once, with the nickname and assignment of the
    connection that comes last in [connectedClients]. *)
Theorem presence_shows_latest_connection clients userId client :
  latest_connection userId clients = Some client ->
  filter (fun o => String.eqb (online_userId o) userId) (getOnlineUsers clients)
  = [online_of client].
Proof.
  unfold latest_connection. intros Hf.
  pose proof (collect_get (map_values clients) [] userId) as Hg. rewrite Hf in Hg.
  apply map_get_In in Hg.
  destruct (find_some _ _ Hf) as [_ Hu]. apply String.eqb_eq in Hu.
  assert (Hin : In (online_of client) (getOnlineUsers clients)).
  { rewrite getOnlineUsers_collect. unfold map_values. apply in_map_iff.
    exists (userId, online_of client). auto. }
  rewrite <- Hu.
  apply (filter_unique_key online_userId (getOnlineUsers clients) (online_of client));
    auto.
  rewrite getOnlineUsers_keys. apply collect_NoDup. constructor.
Qed.

Lemma presence_shows_latest_connection_witness :
  filter (fun o => String.eqb (online_userId o) sample_userId) (getOnlineUsers two_tabs)
  = [mkOnlineUser sample_userId "Annie" CONTROL].
Proof.
  apply (presence_shows_latest_connection two_tabs sample_userId
           (mkClientData sample_userId "Annie" CONTROL 1)).
  vm_compute. reflexivity.
Defined.

(** ** Two tabs of one user: the scenario of [verify_session.js] *)

Lemma remaining_absent userId clients :
  ~ In userId (map client_userId (map_values clients)) ->
  remainingConnections userId clients = 0.
Proof.
  intros H. unfold remainingConnections.
  now rewrite (filter_absent_key client_userId (map_values clients) userId H).
Qed.

(** X17. The checks of [verify_session.js] pass from every state the
    server reaches, when nothing else happens in between: a user without
    a connection joins on two new sockets, which leaves one open session,
    the same for both; the first disconnect keeps it open; the second
    closes it with [endedAt] set, leaves the user no open session and the
    table of connections as it was. *)
Theorem two_tabs_share_one_session st sidA sidB payload userId nickname t1 t2 t3 t4 :
  reachable st ->
  SessionStartSchema payload = Some (userId, nickname) ->
  map_get sidA (connectedClients st) = None ->
  map_get sidB (connectedClients st) = None ->
  sidA <> sidB ->
  ~ In userId (map client_userId (map_values (connectedClients st))) ->
  let st1 := fst (handle (ev_session_start sidA payload t1) st) in
  let st2 := fst (handle (ev_session_start sidB payload t2) st1) in
  let st3 := fst (handle (ev_disconnect sidA t3) st2) in
  let st4 := fst (handle (ev_disconnect sidB t4) st3) in
  exists s,
    open_sessions userId (db st1) = [s]
    /\ open_sessions userId (db st2) = [s]
    /\ open_sessions userId (db st3) = [s]
    /\ open_sessions userId (db st4) = []
    /\ (exists closed,
          prisma.session_find (session_id s) (db st4) = Some closed
          /\ session_endedAt closed = Some t4)
    /\ connectedClients st4 = connectedClients st.
Proof.
  intros Hr Hv HA HB Hne Hu st1 st2 st3 st4.
  pose proof (reachable_handle (ev_session_start sidA payload t1) st Hr) as Hr1.
  pose proof (reachable_handle (ev_session_start sidB payload t2) _ Hr1) as Hr2.
  pose proof (reachable_handle (ev_disconnect sidA t3) _ Hr2) as Hr3.
  fold st1 in Hr1, Hr2, Hr3. fold st2 in Hr2, Hr3. fold st3 in Hr3.
  destruct (session_start_effect sidA payload t1 st _ _ Hv) as (idA & Hc1 & _).
  change (fst (session_start sidA payload t1 st)) with st1 in Hc1.
  rewrite (map_set_fresh _ _ _ HA) in Hc1.
  assert (HgA : map_get sidA (connectedClients st1)
                = Some (mkClientData userId nickname (getAssignment userId) idA)).
  { rewrite Hc1, map_get_app, HA. simpl. now rewrite String.eqb_refl. }
  destruct (tracked_open_session st1 sidA _ Hr1 HgA) as (s & Hopen1 & Hid1 & _).
  simpl in Hopen1, Hid1.
  assert (HB1 : map_get sidB (connectedClients st1) = None).
  { rewrite Hc1, map_get_app, HB. simpl.
    destruct (String.eqb_spec sidB sidA); congruence. }
  destruct (session_start_effect sidB payload t2 st1 _ _ Hv) as (idB & Hc2 & Hs2).
  change (fst (session_start sidB payload t2 st1)) with st2 in Hc2, Hs2.
  rewrite (map_set_fresh _ _ _ HB1), Hc1, <- app_assoc in Hc2. simpl in Hc2.
  assert (HgB : map_get sidB (connectedClients st2)
                = Some (mkClientData userId nickname (getAssignment userId) idB)).
  { rewrite Hc2, map_get_app, HB. simpl.
    destruct (String.eqb_spec sidB sidA); [congruence|].
    now rewrite String.eqb_refl. }
  destruct (tracked_open_session st2 sidB _ Hr2 HgB) as (s2 & Hopen2 & Hid2 & _).
  simpl in Hopen2, Hid2.
  assert (Hsame : sessions (db st2) = sessions (db st1)).
  { destruct Hs2 as [(s' & _ & _ & _ & _ & Hss & _)|(_ & Hss & _)]; [exact Hss|].
    exfalso. unfold open_sessions in Hopen1, Hopen2.
    rewrite Hss, filter_app, Hopen1 in Hopen2. simpl in Hopen2.
    rewrite String.eqb_refl in Hopen2. discriminate. }
  assert (Hopen2' : open_sessions userId (db st2) = [s])
    by (unfold open_sessions in *; now rewrite Hsame).
  assert (HgA2 : map_get sidA (connectedClients st2)
                 = Some (mkClientData userId nickname (getAssignment userId) idA)).
  { rewrite Hc2, map_get_app, HA. simpl. now rewrite String.eqb_refl. }
  assert (Hd3 : map_delete sidA (connectedClients st2)
                = connectedClients st
                  ++ [(sidB, mkClientData userId nickname (getAssignment userId) idB)])
    by (rewrite Hc2; now apply map_delete_fresh).
  assert (Hdb3 : db st3 = db st2).
  { apply (disconnect_not_last sidA t3 st2 _ HgA2). rewrite Hd3.
    apply (remaining_nonzero _ _ sidB
             (mkClientData userId nickname (getAssignment userId) idB)); auto.
    apply in_or_app. right. now left. }
  assert (Hc3 : connectedClients st3
                = connectedClients st
                  ++ [(sidB, mkClientData userId nickname (getAssignment userId) idB)]).
  { unfold st3. simpl handle. now rewrite disconnect_clients, HgA2. }
  assert (HgB3 : map_get sidB (connectedClients st3)
                 = Some (mkClientData userId nickname (getAssignment userId) idB)).
  { rewrite Hc3, map_get_app, HB. simpl. now rewrite String.eqb_refl. }
  assert (Hd4 : map_delete sidB (connectedClients st3) = connectedClients st).
  { rewrite Hc3, (map_delete_fresh _ _ _ _ HB). apply app_nil_r. }
  assert (Hrem : remainingConnections userId (map_delete sidB (connectedClients st3)) = 0)
    by (rewrite Hd4; now apply remaining_absent).
  destruct (disconnect_last_closes_open_session st3 sidB t4 _ Hr3 HgB3 Hrem)
    as (s3 & Hopen3 & Hid3 & Hfind & Hnone & _).
  simpl in Hopen3, Hid3, Hfind, Hnone.
  rewrite Hdb3, Hopen2' in Hopen3. injection Hopen3 as <-.
  exists s. repeat split; auto.
  - now rewrite Hdb3.
  - eexists. split; [rewrite Hid3; exact Hfind|reflexivity].
  - unfold st4. simpl handle. now rewrite disconnect_clients, HgB3.
Qed.

Lemma two_tabs_share_one_session_witness :
  let st1 := fst (handle (ev_session_start "socketA" join_payload 1000) init) in
  let st2 := fst (handle (ev_session_start "socketB" join_payload 2000) st1) in
  let st3 := fst (handle (ev_disconnect "socketA" 3000) st2) in
  let st4 := fst (handle (ev_disconnect "socketB" 4000) st3) in
  exists s,
    open_sessions sample_userId (db st1) = [s]
    /\ open_sessions sample_userId (db st2) = [s]
    /\ open_sessions sample_userId (db st3) = [s]
    /\ open_sessions sample_userId (db st4) = []
    /\ (exists closed,
          prisma.session_find (session_id s) (db st4) = Some closed
          /\ session_endedAt closed = Some 4000)
    /\ connectedClients st4 = connectedClients init.
Proof.
  apply (two_tabs_share_one_session init "socketA" "socketB" join_payload
           sample_userId "Verifier" 1000 2000 3000 4000).
  - exists []. reflexivity.
  - vm_compute. reflexivity.
  - reflexivity.
  - reflexivity.
  - discriminate.
  - simpl. tauto.
Defined.

(** ** The client's assignment and stored identity *)

Lemma poly31_odd userId : forall h,
  Z.odd (poly31 h userId) = xorb (Z.odd h) (Z.odd (code_sum userId)).
Proof.
  induction userId as [|c r IH]; cbn [poly31 code_sum]; intros h.
  - change (Z.odd 0) with false. now rewrite xorb_false_r.
  - rewrite IH, !Z.odd_add, Z.odd_mul. change (Z.odd 31) with true.
    now destruct (Z.odd h), (Z.odd (Js.code c)), (Z.odd (code_sum r)).
Qed.

(** X18. Without an override the client's group depends only on the
    parity of the sum of the identifier's code units: odd gives TREATMENT,
    even (and the empty identifier) gives CONTROL.  The 32-bit wrap-around
    of the hash does not change it. *)
Theorem hash_assignment_is_parity userId :
  AbTesting.hash_assignment userId
  = if Z.odd (code_sum userId) then TREATMENT else CONTROL.
Proof.
  rewrite hash_assignment_parity, toInt32_odd, poly31_odd. reflexivity.
Qed.

(** X19. The developer toggle switches the group, and the switch is what
    a reload reads back, whatever the identifier; a second toggle returns
    to the first group.  The stored identifier is not touched. *)
Theorem toggle_is_read_back assignment localStorage userId fresh :
  let '(assignment', localStorage') := Client.toggleAssignment assignment localStorage in
  assignment' <> assignment
  /\ AbTesting.getAssignment localStorage' userId = assignment'
  /\ fst (Client.toggleAssignment assignment' localStorage') = assignment
  /\ Client.userIdRef localStorage' fresh = Client.userIdRef localStorage fresh.
Proof.
  unfold Client.toggleAssignment, AbTesting.getAssignment, Client.userIdRef,
    AbTesting.setAssignmentOverride.
  rewrite map_get_set_same, map_get_set_other by discriminate.
  destruct assignment; simpl; repeat split; auto; discriminate.
Qed.

(** X20. Clearing the override of a store that lists each key once gives
    back the group computed from the identifier, and leaves the stored
    identifier and the uniqueness of the keys alone. *)
Theorem cleared_override_restores_hash localStorage userId fresh :
  NoDup (map_keys localStorage) ->
  let localStorage' := AbTesting.setAssignmentOverride None localStorage in
  AbTesting.getAssignment localStorage' userId = AbTesting.hash_assignment userId
  /\ Client.userIdRef localStorage' fresh = Client.userIdRef localStorage fresh
  /\ NoDup (map_keys localStorage').
Proof.
  intros Hnd. cbv zeta.
  unfold AbTesting.getAssignment, Client.userIdRef, AbTesting.setAssignmentOverride.
  rewrite (map_get_delete_same _ _ Hnd), map_get_delete_other by discriminate.
  repeat split; auto. now apply map_delete_NoDup.
Qed.

Lemma cleared_override_restores_hash_witness :
  let localStorage :=
    [("vn_userid", sample_userId); ("vn_assignment_override", "CONTROL")] in
  let localStorage' := AbTesting.setAssignmentOverride None localStorage in
  AbTesting.getAssignment localStorage' sample_userId
  = AbTesting.hash_assignment sample_userId
  /\ Client.userIdRef localStorage' "" = Client.userIdRef localStorage ""
  /\ NoDup (map_keys localStorage').
Proof.
  apply (cleared_override_restores_hash
           [("vn_userid", sample_userId); ("vn_assignment_override", "CONTROL")]
           sample_userId "").
  repeat constructor; simpl; intuition discriminate.
Defined.

(** X21. The identifier the client starts with, once stored, is the one
    every later start reads, whatever fresh UUID is generated then. *)
Theorem stored_identity_is_kept localStorage fresh fresh' :
  fresh <> "" ->
  let userId := Client.userIdRef localStorage fresh in
  userId <> ""
  /\ Client.userIdRef (Client.store_userId userId localStorage) fresh' = userId.
Proof.
  intros Hf. cbv zeta.
  assert (Hid : Client.userIdRef localStorage fresh <> "").
  { unfold Client.userIdRef. destruct (map_get "vn_userid" localStorage) as [id|]; auto.
    destruct id; simpl; [auto|discriminate]. }
  split; [exact Hid|].
  unfold Client.store_userId. unfold Client.userIdRef at 1.
  rewrite map_get_set_same.
  destruct (Client.userIdRef localStorage fresh); [contradiction|reflexivity].
Qed.

Lemma stored_identity_is_kept_witness :
  let userId := Client.userIdRef [] sample_userId in
  userId <> ""
  /\ Client.userIdRef (Client.store_userId userId [])
       "9f1c2d3e-0000-4000-8000-00000000000b" = userId.
Proof.
  apply (stored_identity_is_kept [] sample_userId
           "9f1c2d3e-0000-4000-8000-00000000000b").
  discriminate.
Defined.

(** ** The avatar of a mood *)

Lemma lower_char_idem c :
  JsCase.lower_char (JsCase.lower_char c) = JsCase.lower_char c.
Proof. destruct c as [[] [] [] [] [] [] [] []]; vm_compute; reflexivity. Qed.

Lemma toLowerCase_idem s :
  JsCase.toLowerCase (JsCase.toLowerCase s) = JsCase.toLowerCase s.
Proof.
  induction s as [|c r IH]; simpl; auto. now rewrite lower_char_idem, IH.
Qed.

Lemma own_In k o file : AvatarMapping.own k o = Some file -> In file (map snd o).
Proof.
  induction o as [|[k0 v0] r IH]; simpl; [discriminate|].
  destruct (String.eqb k k0); [intros H; inversion H|]; auto.
Qed.

Lemma lowered_key_is_own native k :
  JsCase.toLowerCase k = k -> k <> "constructor" -> k <> "__proto__" ->
  AvatarMapping.mapping_get native k = AvatarMapping.own k AvatarMapping.mapping.
Proof.
  intros Hl Hc Hp. unfold AvatarMapping.mapping_get.
  destruct (AvatarMapping.own k AvatarMapping.mapping) eqn:E; auto.
  destruct (existsb _ AvatarMapping.inherited_functions) eqn:Ex.
  - exfalso. apply existsb_exists in Ex. destruct Ex as (x & Hin & Hx).
    apply String.eqb_eq in Hx. subst x. simpl in Hin.
    repeat (destruct Hin as [Hin|Hin];
            [subst k; first [congruence | vm_compute in Hl; discriminate]|]).
    contradiction.
  - destruct (String.eqb_spec k "__proto__"); [contradiction|reflexivity].
Qed.

(** X22. Apart from the two moods that name something every object
    inherits ([constructor] and [__proto__], in any letter case), every
    mood gets the URL of a file the mapping names, under the base path; a
    mood the mapping does not list gets [admiration.jpeg]; and the letter
    case of the mood does not matter. *)
Theorem getAvatarUrl_names_a_file native emotion :
  JsCase.toLowerCase emotion <> "constructor" ->
  JsCase.toLowerCase emotion <> "__proto__" ->
  (exists file,
     In file avatar_files
     /\ AvatarMapping.getAvatarUrl native emotion
        = (AvatarMapping.basePath ++ "/" ++ file)%string)
  /\ (AvatarMapping.own (JsCase.toLowerCase emotion) AvatarMapping.mapping = None ->
      AvatarMapping.getAvatarUrl native emotion = "/assets/vn/avatars/admiration.jpeg")
  /\ AvatarMapping.getAvatarUrl native (JsCase.toLowerCase emotion)
     = AvatarMapping.getAvatarUrl native emotion.
Proof.
  intros Hc Hp.
  pose proof (lowered_key_is_own native _ (toLowerCase_idem emotion) Hc Hp) as Hown.
  unfold AvatarMapping.getAvatarUrl. cbv zeta. rewrite toLowerCase_idem, Hown.
  split; [|split; [|reflexivity]].
  - destruct (AvatarMapping.own _ AvatarMapping.mapping) as [file|] eqn:E.
    + exists file. split; [exact (own_In _ _ _ E)|reflexivity].
    + exists "admiration.jpeg". split; [simpl; auto|reflexivity].
  - intros ->. reflexivity.
Qed.

Lemma getAvatarUrl_names_a_file_witness :
  exists file,
    In file avatar_files
    /\ AvatarMapping.getAvatarUrl (fun _ => "") "Anger"
       = (AvatarMapping.basePath ++ "/" ++ file)%string.
Proof.
  apply (proj1 (getAvatarUrl_names_a_file (fun _ => "") "Anger"
                  ltac:(vm_compute; discriminate) ltac:(vm_compute; discriminate))).
Defined.

(** X23. The two inherited names are not avatar files: a mood that is
    [constructor] in any letter case gets the text of a function after
    the base path, and one that is [__proto__] gets [[object Object]]. *)
Theorem getAvatarUrl_inherited_names native emotion :
  (JsCase.toLowerCase emotion = "constructor" ->
   AvatarMapping.getAvatarUrl native emotion
   = ("/assets/vn/avatars/" ++ native "constructor")%string)
  /\ (JsCase.toLowerCase emotion = "__proto__" ->
      AvatarMapping.getAvatarUrl native emotion
      = "/assets/vn/avatars/[object Object]").
Proof.
  unfold AvatarMapping.getAvatarUrl. cbv zeta.
  split; intros ->; reflexivity.
Qed.

Lemma getAvatarUrl_inherited_names_witness :
  AvatarMapping.getAvatarUrl (fun _ => "function Object() { [native code] }")
    "Constructor"
  = "/assets/vn/avatars/function Object() { [native code] }".
Proof.
  apply (proj1 (getAvatarUrl_inherited_names
                  (fun _ => "function Object() { [native code] }") "Constructor")).
  reflexivity.
Defined.

(** X24. The avatar shown follows the mood of the latest message: with
    no message, or when that mood is the empty string, it is
    [neutral.png]; otherwise it is the avatar of that mood. *)
Theorem avatar_follows_latest_mood native moods :
  AvatarMapping.getAvatarUrl native (Client.currentMood [])
  = "/assets/vn/avatars/neutral.png"
  /\ AvatarMapping.getAvatarUrl native (Client.currentMood (moods ++ [""]))
     = "/assets/vn/avatars/neutral.png"
  /\ forall mood, mood <> "" ->
       AvatarMapping.getAvatarUrl native (Client.currentMood (moods ++ [mood]))
       = AvatarMapping.getAvatarUrl native mood.
Proof.
  unfold Client.currentMood. rewrite rev_app_distr. simpl.
  repeat split. intros mood Hm. rewrite rev_app_distr. simpl.
  destruct mood; [contradiction|reflexivity].
Qed.

Lemma avatar_follows_latest_mood_witness :
  AvatarMapping.getAvatarUrl (fun _ => "") (Client.currentMood (["NEUTRAL"] ++ ["JOY"]))
  = AvatarMapping.getAvatarUrl (fun _ => "") "JOY".
Proof.
  apply (proj2 (proj2 (avatar_follows_latest_mood (fun _ => "") ["NEUTRAL"])) "JOY").
  discriminate.
Defined.

(** ** The client's state follows the server *)

Lemma deliver_app socketId o1 o2 c :
  App.deliver socketId (o1 ++ o2) c
  = match App.deliver socketId o1 c with
    | Some c1 => App.deliver socketId o2 c1
    | None => None
    end.
Proof.
  revert c. induction o1 as [|e r IH]; simpl; intros c; auto.
  destruct (App.arrives socketId e) as [[event payload]|]; auto.
  destruct (App.listener event) as [on|]; auto.
  destruct (on payload c); auto.
Qed.

Lemma session_start_messages socketId payload now st :
  messages (db (fst (session_start socketId payload now st))) = messages (db st).
Proof.
  unfold session_start. destruct (SessionStartSchema payload) as [[userId nickname]|]; auto.
  cbv zeta. destruct (prisma.session_findFirst_open userId _); simpl;
    apply user_upsert_tables.
Qed.

Lemma disconnect_messages socketId now st :
  messages (db (fst (disconnect socketId now st))) = messages (db st).
Proof.
  destruct (disconnect_db socketId now st) as [->|(cd & d1 & _ & _ & Hs & [->|Hu])]; auto.
  - now destruct (session_update_tables _ _ _ _ Hs) as (_ & -> & _).
  - destruct (user_update_tables _ _ _ _ Hu) as (_ & _ & _ & -> & _).
    now destruct (session_update_tables _ _ _ _ Hs) as (_ & -> & _).
Qed.

Lemma message_send_emits socketId payload now messageId response st :
  reachable st ->
  connectedClients (fst (message_send socketId payload now messageId response st))
  = connectedClients st
  /\ ((messages (db (fst (message_send socketId payload now messageId response st)))
       = messages (db st)
       /\ (snd (message_send socketId payload now messageId response st) = []
           \/ exists event text,
                snd (message_send socketId payload now messageId response st)
                = [socket_emit socketId event (JObj [("message", JStr text)])]
                /\ (event = "error:invalid_payload" \/ event = "error:rate_limited")))
      \/ exists m,
           messages (db (fst (message_send socketId payload now messageId response st)))
           = messages (db st) ++ [m]
           /\ snd (message_send socketId payload now messageId response st)
              = [io_emit "message:new" (JObj [("message", messageDTO m)])]).
Proof.
  intros Hr. pose proof (reachable_clients_known st Hr) as Hk.
  unfold message_send.
  destruct (map_get socketId (connectedClients st)) as [cd|] eqn:Hc; [|simpl; auto].
  apply map_get_In in Hc. apply Hk in Hc.
  destruct (MessageSendSchema payload) as [[payloadUserId text]|]; [|simpl; eauto 10].
  destruct (negb _); [simpl; eauto 10|].
  destruct (_ >=? _); [simpl; eauto 10|].
  destruct (infer response) as [mood intensity].
  destruct (prisma.message_create _ _ _ _ _ _ _ _) as [[d1 m]|] eqn:Hm; [|simpl; auto].
  destruct (message_create_tables _ _ _ _ _ _ _ _ _ _ Hm)
    as (q & _ & _ & Hmsgs & Husers & _).
  assert (Hin : In (client_userId cd) (user_ids d1))
    by (unfold user_ids; now rewrite Husers).
  destruct (user_update_succeeds _ now _ Hin) as (d2 & Hu). rewrite Hu. simpl.
  split; auto. right. exists m. split; auto.
  destruct (user_update_tables _ _ _ _ Hu) as (_ & _ & _ & -> & _). exact Hmsgs.
Qed.

Lemma handle_followed socketId e st c :
  reachable st -> elsewhere socketId e = true -> presence_in_sync c st ->
  exists c' added,
    App.deliver socketId (snd (handle e st)) c = Some c'
    /\ messages (db (fst (handle e st))) = messages (db st) ++ added
    /\ App.messages c' = App.messages c ++ map messageDTO added
    /\ presence_in_sync c' (fst (handle e st))
    /\ App.joined c' = App.joined c.
Proof.
  unfold presence_in_sync. intros Hr He Hsync.
  destruct e as [sid payload now|sid payload now messageId response|sid now|];
    simpl in He; simpl handle; [| | |discriminate].
  - rewrite session_start_messages.
    apply negb_true_iff in He.
    unfold session_start.
    destruct (SessionStartSchema payload) as [[userId nickname]|]; simpl.
    + destruct (prisma.session_findFirst_open userId _); simpl; rewrite He; simpl;
        (eexists; exists []; simpl; rewrite !app_nil_r; repeat split; reflexivity).
    + rewrite He. exists c, []. simpl. rewrite !app_nil_r. auto.
  - destruct (message_send_emits sid payload now messageId response st Hr)
      as (Hcc & [(Hm & [Hout|(event & text & Hout & Hev)])|(m & Hm & Hout)]);
      rewrite Hcc, Hm, Hout.
    + exists c, []. simpl. rewrite !app_nil_r. auto.
    + simpl. destruct (String.eqb sid socketId).
      * destruct Hev as [-> | ->]; simpl;
          (eexists; exists []; simpl; rewrite !app_nil_r; repeat split; auto).
      * exists c, []. simpl. rewrite !app_nil_r. auto.
    + simpl. eexists. exists [m]. simpl. repeat split; auto.
  - rewrite disconnect_messages. unfold disconnect.
    destruct (map_get sid (connectedClients st)); simpl.
    + eexists. exists []. simpl. rewrite !app_nil_r. repeat split; reflexivity.
    + exists c, []. simpl. rewrite !app_nil_r. auto.
Qed.

(** X25. A valid join is answered in the shape the client's listeners
    expect: after the [session:ack] and the [presence:update] that follow
    it the client is joined, shows the replayed history, holds the
    server's list of online users and has no error. *)
Theorem client_joined_after_ack socketId payload now st userId nickname c :
  SessionStartSchema payload = Some (userId, nickname) ->
  let '(st', out) := session_start socketId payload now st in
  exists c',
    App.deliver socketId out c = Some c'
    /\ App.joined c' = true
    /\ App.messages c'
       = map messageDTO (rev (prisma.message_findMany_desc 50 (db st')))
    /\ presence_in_sync c' st'
    /\ App.lastError c' = None.
Proof.
  intros Hv. unfold session_start, presence_in_sync. rewrite Hv. cbv zeta.
  destruct (prisma.session_findFirst_open userId _); simpl;
    rewrite String.eqb_refl; simpl; eexists; repeat split; reflexivity.
Qed.

Lemma client_joined_after_ack_witness :
  let '(st', out) := session_start "socketB" join_payload 7000 after_flood in
  exists c',
    App.deliver "socketB" out (App.mkAppState true false [] [] (Some "old")) = Some c'
    /\ App.joined c' = true
    /\ App.messages c'
       = map messageDTO (rev (prisma.message_findMany_desc 50 (db st')))
    /\ presence_in_sync c' st'
    /\ App.lastError c' = None.
Proof.
  apply (client_joined_after_ack "socketB" join_payload 7000 after_flood
           sample_userId "Verifier" (App.mkAppState true false [] [] (Some "old"))).
  vm_compute. reflexivity.
Defined.

(** X26. While the server is not restarted and a socket neither joins
    again nor disconnects, a client on that socket whose list of online
    users is the server's keeps it so through every run of events, and
    its list of messages grows by exactly the messages the server stores,
    in the same order; every emission that arrives has the shape the
    listeners expect. *)
Theorem client_follows_server socketId es : forall st c,
  reachable st ->
  forallb (elsewhere socketId) es = true ->
  presence_in_sync c st ->
  exists c' added,
    App.deliver socketId (snd (run es st)) c = Some c'
    /\ messages (db (fst (run es st))) = messages (db st) ++ added
    /\ App.messages c' = App.messages c ++ map messageDTO added
    /\ presence_in_sync c' (fst (run es st))
    /\ App.joined c' = App.joined c.
Proof.
  induction es as [|e r IH]; simpl; intros st c Hr Hall Hsync.
  - exists c, []. simpl. rewrite !app_nil_r. auto.
  - apply andb_true_iff in Hall. destruct Hall as [He Hall].
    destruct (handle_followed socketId e st c Hr He Hsync)
      as (c1 & a1 & Hd1 & Hm1 & Hc1 & Hs1 & Hj1).
    pose proof (reachable_handle e st Hr) as Hr1.
    destruct (handle e st) as [st1 out1]. simpl in *.
    destruct (IH st1 c1 Hr1 Hall Hs1) as (c2 & a2 & Hd2 & Hm2 & Hc2 & Hs2 & Hj2).
    destruct (run r st1) as [st2 out2]. simpl in *.
    exists c2, (a1 ++ a2). rewrite deliver_app, Hd1, Hd2, Hm2, Hm1, Hc2, Hc1, map_app.
    rewrite <- !app_assoc. repeat split; auto. congruence.
Qed.

Lemma client_follows_server_witness :
  exists c' added,
    App.deliver "socketA" (snd (run (map (send_event "socketA" hello) flood) joined_state))
      (App.mkAppState true true []
         (map OnlineUser_json (getOnlineUsers (connectedClients joined_state))) None)
    = Some c'
    /\ messages (db (fst (run (map (send_event "socketA" hello) flood) joined_state)))
       = messages (db joined_state) ++ added
    /\ App.messages c' = [] ++ map messageDTO added
    /\ presence_in_sync c' (fst (run (map (send_event "socketA" hello) flood) joined_state))
    /\ App.joined c' = true.
Proof.
  apply (client_follows_server "socketA" (map (send_event "socketA" hello) flood)
           joined_state
           (App.mkAppState true true []
              (map OnlineUser_json (getOnlineUsers (connectedClients joined_state)))
              None)).
  - exists [ev_session_start "socketA" join_payload 1000]. reflexivity.
  - vm_compute. reflexivity.
  - reflexivity.
Defined.

(** ** From the classifier's answer to the avatar *)

Lemma lower_upper_units c :
  (Js.code c <? 128) = true ->
  exists u, Js.upper_units c = String u EmptyString
            /\ JsCase.lower_char u = JsCase.lower_char c.
Proof.
  intros H.
  exists (match Js.upper_units c with String u _ => u | EmptyString => c end).
  destruct c as [[] [] [] [] [] [] [] []]; vm_compute in H;
    first [discriminate H | split; vm_compute; reflexivity].
Qed.

Lemma toLowerCase_toUpperCase s :
  ascii_only s = true ->
  JsCase.toLowerCase (Js.toUpperCase s) = JsCase.toLowerCase s.
Proof.
  unfold ascii_only. induction s as [|c r IH]; simpl; auto.
  intros H. apply andb_true_iff in H. destruct H as [Hc Hr].
  destruct (lower_upper_units c Hc) as (u & -> & Hu). simpl.
  now rewrite Hu, IH.
Qed.

(** X27. The mood the server attaches to a message decides the avatar
    as the classifier's answer would, whatever its letter case: the
    server's upper-casing is undone by the client's lower-casing.  An
    empty mood, and any answer without a string mood (also no answer at
    all), shows [neutral.png]. *)
Theorem avatar_of_inferred_mood native moods response :
  (forall data mood,
     response = fetch_response true (Some data) ->
     obj_get "mood" data = Some (JStr mood) ->
     ascii_only mood = true ->
     AvatarMapping.getAvatarUrl native (Client.currentMood (moods ++ [fst (infer response)]))
     = AvatarMapping.getAvatarUrl native (if JsCase.truthy mood then mood else "neutral"))
  /\ ((forall data mood,
         response = fetch_response true (Some data) ->
         obj_get "mood" data <> Some (JStr mood)) ->
      AvatarMapping.getAvatarUrl native (Client.currentMood (moods ++ [fst (infer response)]))
      = "/assets/vn/avatars/neutral.png").
Proof.
  unfold Client.currentMood. rewrite rev_app_distr. simpl rev. simpl app.
  split.
  - intros data mood -> Hm Ha. simpl. rewrite Hm. simpl.
    destruct mood as [|c r]; [reflexivity|].
    assert (Hup : JsCase.truthy (Js.toUpperCase (String c r)) = true).
    { simpl in Ha. apply andb_true_iff in Ha. destruct Ha as [Hc _].
      simpl. now destruct (lower_upper_units c Hc) as (u & -> & _). }
    rewrite Hup. simpl JsCase.truthy. cbv iota.
    unfold AvatarMapping.getAvatarUrl. cbv zeta.
    now rewrite (toLowerCase_toUpperCase (String c r) Ha).
  - intros Hno. destruct response as [|[] [data|]]; try reflexivity.
    simpl. destruct (obj_get "mood" data) as [[]|] eqn:E; try reflexivity.
    exfalso. exact (Hno data _ eq_refl E).
Qed.

Lemma avatar_of_inferred_mood_witness :
  AvatarMapping.getAvatarUrl (fun _ => "")
    (Client.currentMood ([] ++ [fst (infer response_joy)]))
  = AvatarMapping.getAvatarUrl (fun _ => "") "joy".
Proof.
  apply (proj1 (avatar_of_inferred_mood (fun _ => "") [] response_joy)
           (JObj [("mood", JStr "joy"); ("intensity", JNum (8 # 10))]) "joy");
    reflexivity.
Defined.
